(** * Steam-id processor: check store, queue client and cooldown controller

    A shallow embedding of [src/cooldown-manager.js], [src/redis-queue-client.js]
    and [src/queue-manager.js].  JavaScript objects used as dictionaries are
    finite maps, arrays are lists, [Date.now()] is an explicit argument, the
    files on disk are fields of the state, and a failing [fs] write is an
    oracle indexed by the number of writes attempted so far. *)

From Stdlib Require Import ZArith Ascii String.
From stdpp Require Import gmap strings list fin_maps.

#[local] Set Warnings "-clear-no-such-hyp".
Local Open Scope string_scope.
Local Open Scope Z_scope.

(** A call either returns a value or throws (a promise resolves or
    rejects). *)
Inductive Outcome (E A : Type) : Type :=
  | Returned (a : A)
  | Thrown (e : E).
Arguments Returned {E A} a.
Arguments Thrown {E A} e.

(** ** Cooldown controller ([class CooldownManager]) *)

Module CooldownManager.

(** One entry of [endpoint_cooldowns].  The 429 shape carries
    [backoff_level] and [duration_minutes], the fixed-duration shape carries
    [duration_used]; an absent property is [None]. *)
Record EndpointCooldown := {
  cooldown_until : Z;
  reason : string;
  backoff_level : option Z;
  applied_at : Z;
  error_message : string;
  duration_minutes : option Z;
  duration_used : option Z
}.

Record CooldownDurations := {
  connection_reset : Z;
  timeout : Z;
  dns_failure : Z
}.

(** The object's fields, plus the content of [endpoint_cooldowns.json] and
    the number of [saveCooldowns] calls made so far. *)
Record t := {
  cooldowns : gmap string EndpointCooldown;
  cooldownDurations : CooldownDurations;
  backoffSequence : list Z;
  backoffLevels : gmap string Z;
  cooldownFile : gmap string EndpointCooldown;
  saveCalls : nat
}.

Definition set_cooldowns (m : gmap string EndpointCooldown) (cm : t) : t :=
  {| cooldowns := m; cooldownDurations := cooldownDurations cm;
     backoffSequence := backoffSequence cm; backoffLevels := backoffLevels cm;
     cooldownFile := cooldownFile cm; saveCalls := saveCalls cm |}.

Definition set_backoffLevels (l : gmap string Z) (cm : t) : t :=
  {| cooldowns := cooldowns cm; cooldownDurations := cooldownDurations cm;
     backoffSequence := backoffSequence cm; backoffLevels := l;
     cooldownFile := cooldownFile cm; saveCalls := saveCalls cm |}.

Definition fallbackSequence : list Z := [1; 2; 4; 8; 16; 32; 60; 120; 240; 480].

(** [backoffSequence[i]]; an index outside the array reads [undefined] in the
    source, which is [0] here.  [level_in_range] below shows that the index
    computed by [markEndpointCooldown] stays inside the array. *)
Definition seqAt (s : list Z) (i : Z) : Z :=
  if i <? 0 then 0 else default 0 (s !! Z.to_nat i).

Record EndpointSummary := {
  availableConnections : Z;
  totalConnections : Z;
  nextAvailableIn : Z
}.

Record ConnectionStatus := {
  endpointSummary : list (string * EndpointSummary)
}.

Section WithFs.

(** [fsWriteOk n]: does the [n]-th call of [fs.writeFileSync] succeed? *)
Variable fsWriteOk : nat → bool.

(** [saveCooldowns]: a failed write is logged and swallowed. *)
Definition saveCooldowns (cm : t) : t :=
  {| cooldowns := cooldowns cm; cooldownDurations := cooldownDurations cm;
     backoffSequence := backoffSequence cm; backoffLevels := backoffLevels cm;
     cooldownFile := if fsWriteOk (saveCalls cm) then cooldowns cm
                     else cooldownFile cm;
     saveCalls := S (saveCalls cm) |}.

(** The constructor when no cooldown file exists yet: the sequence is
    validated, [createDefaultCooldowns] writes the empty document, and
    [initializeBackoffLevelsFromFile] finds nothing to copy. *)
Definition create (durations : CooldownDurations) (sequence : list Z) : t :=
  saveCooldowns
    {| cooldowns := ∅; cooldownDurations := durations;
       backoffSequence := match sequence with [] => fallbackSequence | _ => sequence end;
       backoffLevels := ∅; cooldownFile := ∅; saveCalls := 0 |}.

(** [initializeBackoffLevelsFromFile]: every entry with [reason === '429']
    and a numeric [backoff_level] is copied into the table. *)
Definition initializeBackoffLevelsFromFile (cm : t) : t :=
  set_backoffLevels
    (omap (λ c, if decide (reason c = "429") then backoff_level c else None)
          (cooldowns cm) ∪ backoffLevels cm) cm.

(** The loop of [cleanupExpiredCooldowns] over [Object.keys]. *)
Fixpoint cleanupLoop (now : Z) (endpointNames : list string)
    (m : gmap string EndpointCooldown) (cleanupCount : nat)
    : gmap string EndpointCooldown * nat :=
  match endpointNames with
  | [] => (m, cleanupCount)
  | endpoint :: rest =>
      match m !! endpoint with
      | Some cooldown =>
          if cooldown_until cooldown <=? now
          then cleanupLoop now rest (delete endpoint m) (S cleanupCount)
          else cleanupLoop now rest m cleanupCount
      | None => cleanupLoop now rest m cleanupCount
      end
  end.

Definition cleanupExpiredCooldowns (now : Z) (cm : t) : nat * t :=
  let endpointNames := (map_to_list (cooldowns cm)).*1 in
  let '(m, cleanupCount) := cleanupLoop now endpointNames (cooldowns cm) 0 in
  let cm1 := set_cooldowns m cm in
  (cleanupCount, if (0 <? cleanupCount)%nat then saveCooldowns cm1 else cm1).

Definition isEndpointAvailable (now : Z) (endpoint : string) (cm : t) : bool :=
  match cooldowns cm !! endpoint with
  | None => true
  | Some cooldown => cooldown_until cooldown <=? now
  end.

Definition markEndpointCooldown (now : Z) (endpoint errorType errorMessage : string)
    (cm : t) : t :=
  if decide (errorType = "429") then
    let currentLevel := default 0 (backoffLevels cm !! endpoint) in
    let newLevel := Z.min (currentLevel + 1) (Z.of_nat (length (backoffSequence cm)) - 1) in
    let cm1 := set_backoffLevels (<[endpoint := newLevel]> (backoffLevels cm)) cm in
    let cooldownMinutes := seqAt (backoffSequence cm) newLevel in
    let cooldownDuration := cooldownMinutes * 60 * 1000 in
    let cooldownUntil := now + cooldownDuration in
    saveCooldowns
      (set_cooldowns
         (<[endpoint := {| cooldown_until := cooldownUntil; reason := "429";
                           backoff_level := Some newLevel; applied_at := now;
                           error_message := errorMessage;
                           duration_minutes := Some cooldownMinutes;
                           duration_used := None |}]> (cooldowns cm1)) cm1)
  else
    let cooldownDuration :=
      if decide (errorType = "connection_error") then connection_reset (cooldownDurations cm)
      else if decide (errorType = "timeout") then timeout (cooldownDurations cm)
      else if decide (errorType = "dns_failure") then dns_failure (cooldownDurations cm)
      else 60000 in
    let cooldownUntil := now + cooldownDuration in
    saveCooldowns
      (set_cooldowns
         (<[endpoint := {| cooldown_until := cooldownUntil; reason := errorType;
                           backoff_level := None; applied_at := now;
                           error_message := errorMessage;
                           duration_minutes := None;
                           duration_used := Some cooldownDuration |}]> (cooldowns cm)) cm).

Definition resetBackoffOnSuccess (endpoint : string) (cm : t) : t :=
  let hadBackoffLevel := bool_decide (is_Some (backoffLevels cm !! endpoint)) in
  let cm1 := if hadBackoffLevel
             then set_backoffLevels (delete endpoint (backoffLevels cm)) cm
             else cm in
  match cooldowns cm1 !! endpoint with
  | Some cooldown =>
      if decide (reason cooldown = "429")
      then saveCooldowns (set_cooldowns (delete endpoint (cooldowns cm1)) cm1)
      else cm1
  | None => cm1
  end.

Definition getNextAvailableTimeForEndpoint (now : Z) (endpoint : string) (cm : t) : Z :=
  match cooldowns cm !! endpoint with
  | None => 0
  | Some cooldown => Z.max 0 (cooldown_until cooldown - now)
  end.

Definition allEndpoints : list string :=
  ["friends"; "inventory"; "steam_level"; "animated_avatar";
   "avatar_frame"; "mini_profile_background"; "profile_background"].

(** The [endpointSummary] half of [getConnectionStatus]; the [connections]
    half only feeds monitoring output. *)
Definition getConnectionStatus (now : Z) (cm : t) : ConnectionStatus * t :=
  let cm1 := (cleanupExpiredCooldowns now cm).2 in
  ({| endpointSummary :=
        map (λ endpoint,
               let isAvailable := isEndpointAvailable now endpoint cm1 in
               (endpoint,
                {| availableConnections := if isAvailable then 1 else 0;
                   totalConnections := 1;
                   nextAvailableIn :=
                     if isAvailable then 0
                     else getNextAvailableTimeForEndpoint now endpoint cm1 |}))
            allEndpoints |},
   cm1).

(** The constructor: [file] is the parsed [endpoint_cooldowns] of an existing
    cooldown file ([None]: no file, or one that does not parse, for which
    [createDefaultCooldowns] runs), [writes] the number of writes the file
    system has seen.  [ensureCooldownStructure] and [createDefaultCooldowns]
    both save; [initializeBackoffLevelsFromFile] then fills the table. *)
Definition construct (durations : CooldownDurations) (sequence : list Z)
    (file : option (gmap string EndpointCooldown)) (writes : nat) : t :=
  initializeBackoffLevelsFromFile
    (saveCooldowns
       {| cooldowns := default ∅ file; cooldownDurations := durations;
          backoffSequence := match sequence with [] => fallbackSequence | _ => sequence end;
          backoffLevels := ∅; cooldownFile := default ∅ file; saveCalls := writes |}).

(** A new process started on the files the old one left. *)
Definition restart (cm : t) : t :=
  construct (cooldownDurations cm) (backoffSequence cm) (Some (cooldownFile cm)) (saveCalls cm).

Definition getNextBackoffDuration (currentLevel : Z) (cm : t) : Z :=
  let nextLevel := currentLevel + 1 in
  if Z.of_nat (length (backoffSequence cm)) <=? nextLevel
  then seqAt (backoffSequence cm) 0
  else seqAt (backoffSequence cm) nextLevel.

Definition isEndpointInCooldown (now : Z) (endpoint : string) (cm : t) : bool * t :=
  let cm1 := (cleanupExpiredCooldowns now cm).2 in
  (negb (isEndpointAvailable now endpoint cm1), cm1).

Definition areAllConnectionsInCooldownForEndpoint (now : Z) (endpoint : string) (cm : t)
    : bool * t :=
  isEndpointInCooldown now endpoint cm.

(** [k] rate-limit signals in a row for one endpoint, each with its own
    clock reading and message. *)
Fixpoint mark429s (endpoint : string) (calls : list (Z * string)) (cm : t) : t :=
  match calls with
  | [] => cm
  | (now, msg) :: rest => mark429s endpoint rest (markEndpointCooldown now endpoint "429" msg cm)
  end.

End WithFs.

(** [haystack.includes(needle)] *)
Fixpoint includes (needle haystack : string) : bool :=
  String.prefix needle haystack ||
  match haystack with
  | EmptyString => false
  | String _ rest => includes needle rest
  end.

Definition getEndpointName (url : string) : string :=
  if includes "GetFriendList" url then "friends"
  else if includes "inventory" url then "inventory"
  else if includes "GetSteamLevel" url then "steam_level"
  else if includes "GetAnimatedAvatar" url then "animated_avatar"
  else if includes "GetAvatarFrame" url then "avatar_frame"
  else if includes "GetMiniProfileBackground" url then "mini_profile_background"
  else if includes "GetProfileBackground" url then "profile_background"
  else "other".

Definition getTimeoutForEndpoint (endpointName : string) : Z :=
  if decide (endpointName = "inventory") then 25000 else 15000.

(** What [createAxiosInstance] hands back: the refusal object, or an axios
    instance, of whose configuration the timeout and the endpoint name
    vary. *)
Inductive AxiosInstance : Type :=
  | AllInCooldown (nextAvailableIn : Z) (endpointName : string)
  | Instance (timeout : Z) (endpointName : string).

Definition createAxiosInstance (now : Z) (endpoint : string) (cm : t) : AxiosInstance :=
  let endpointName := getEndpointName endpoint in
  if negb (isEndpointAvailable now endpointName cm)
  then AllInCooldown (getNextAvailableTimeForEndpoint now endpointName cm) endpointName
  else Instance (getTimeoutForEndpoint endpointName) endpointName.

(** [errorMsg] is [error.message || '']. *)
Definition isConnectionError (errorMsg : string) : bool :=
  includes "socket disconnected" errorMsg ||
  includes "socket hang up" errorMsg ||
  includes "ECONNRESET" errorMsg ||
  includes "ECONNREFUSED" errorMsg ||
  includes "ETIMEDOUT" errorMsg ||
  includes "EHOSTUNREACH" errorMsg ||
  includes "timeout" errorMsg ||
  includes "certificate" errorMsg ||
  includes "SSL" errorMsg ||
  includes "TLS" errorMsg ||
  includes "ENOTFOUND" errorMsg.

Definition categorizeConnectionError (errorMsg : string) : string :=
  if includes "ENOTFOUND" errorMsg || includes "EHOSTUNREACH" errorMsg then "dns_failure"
  else if includes "timeout" errorMsg || includes "ETIMEDOUT" errorMsg then "timeout"
  else "connection_error".

(** An error as [handleRequestError] looks at it: its message and, when the
    server answered, the status of the response. *)
Record RequestError := {
  message : string;
  responseStatus : option Z
}.

(** The object [handleRequestError] returns, without the error it echoes. *)
Inductive ErrorDetails : Type :=
  | PlainError
  | RateLimited (endpointName : string)
  | ConnectionError (endpointName errorType : string).

(** [connectionInfo] is [axiosConfig._connectionInfo], the endpoint name the
    instance was created for, if present. *)
Definition handleRequestError (fsWriteOk : nat → bool) (now : Z) (error : RequestError)
    (connectionInfo : option string) (cm : t) : ErrorDetails * t :=
  match connectionInfo with
  | None => (PlainError, cm)
  | Some endpointName =>
      if bool_decide (responseStatus error = Some 429) then
        (RateLimited endpointName,
         markEndpointCooldown fsWriteOk now endpointName "429" (message error) cm)
      else if isConnectionError (message error) then
        let errorType := categorizeConnectionError (message error) in
        (ConnectionError endpointName errorType,
         markEndpointCooldown fsWriteOk now endpointName errorType (message error) cm)
      else (PlainError, cm)
  end.

End CooldownManager.

(** ** Queue client ([class RedisQueueClient]) *)

Module RedisQueueClient.

(** JavaScript values as far as the client inspects them. *)
#[local] Unset Elimination Schemes.
Inductive JSValue : Type :=
  | JUndefined
  | JNull
  | JBool (b : bool)
  | JNumber (n : Z)
  | JString (s : string)
  | JArray (elements : list JSValue)
  | JObject (properties : list (string * JSValue)).
#[local] Set Elimination Schemes.

Definition truthy (v : JSValue) : bool :=
  match v with
  | JUndefined | JNull => false
  | JBool b => b
  | JNumber n => negb (n =? 0)
  | JString s => negb (bool_decide (s = ""))
  | JArray _ | JObject _ => true
  end.

Fixpoint assoc (key : string) (properties : list (string * JSValue)) : option JSValue :=
  match properties with
  | [] => None
  | (k, v) :: rest => if decide (k = key) then Some v else assoc key rest
  end.

(** What the promise of [makeRequest] is rejected with, and what a failed
    property read throws. *)
Inductive QueueError : Type :=
  | QueueApiError (detail : JSValue)
  | ParseFailure
  | RequestFailed (message : string)
  | RequestTimeout
  | TypeError.

(** [v.key]: reading a property of [undefined] or [null] throws. *)
Definition getProp (v : JSValue) (key : string) : Outcome QueueError JSValue :=
  match v with
  | JUndefined | JNull => Thrown TypeError
  | JObject properties => Returned (default JUndefined (assoc key properties))
  | JArray elements =>
      Returned (if decide (key = "length") then JNumber (Z.of_nat (length elements))
                else JUndefined)
  | JString s =>
      Returned (if decide (key = "length") then JNumber (Z.of_nat (String.length s))
                else JUndefined)
  | JBool _ | JNumber _ => Returned JUndefined
  end.

Record Request := {
  method : string;
  endpoint : string;
  data : option JSValue
}.

(** What happens to one request on the wire. *)
Inductive Exchange : Type :=
  | HttpResponse (statusCode : Z) (responseData : string)
  | RequestErrorEvent (message : string)
  | TimeoutEvent.

Record t := {
  queueName : string;
  instanceId : string
}.

Definition ebind {A B} (m : Outcome QueueError A) (k : A → Outcome QueueError B)
    : Outcome QueueError B :=
  match m with
  | Returned a => k a
  | Thrown e => Thrown e
  end.

Definition ecatch {A} (m : Outcome QueueError A) (handler : QueueError → Outcome QueueError A)
    : Outcome QueueError A :=
  match m with
  | Returned a => Returned a
  | Thrown e => handler e
  end.

Notation "x ←? m ; k" := (ebind m (λ x, k))
  (at level 20, m at level 100, k at level 200, only parsing).

Section WithTransport.

(** [JSON.parse], and the remote service together with the network. *)
Variable JSON_parse : string → Outcome QueueError JSValue.
Variable transport : Request → Exchange.

Definition makeRequest (method endpoint : string) (data : option JSValue)
    : Outcome QueueError JSValue :=
  match transport {| method := method; endpoint := endpoint; data := data |} with
  | HttpResponse statusCode responseData =>
      ecatch
        (parsed ←? JSON_parse responseData;
         ok ←? (if statusCode =? 200
                then success ←? getProp parsed "success"; Returned (truthy success)
                else Returned false);
         if ok : bool then Returned parsed
         else
           error ←? getProp parsed "error";
           Thrown (QueueApiError (if truthy error then error else JString responseData)))
        (λ err, match err with
                | QueueApiError _ => Thrown err
                | _ => Thrown ParseFailure
                end)
  | RequestErrorEvent message => Thrown (RequestFailed message)
  | TimeoutEvent => Thrown RequestTimeout
  end.

Definition claimItems (self : t) (count : Z) : Outcome QueueError JSValue :=
  ecatch
    (response ←? makeRequest "POST" ("/queue/" +:+ queueName self +:+ "/claim")
                   (Some (JObject [("instance_id", JString (instanceId self));
                                   ("count", JNumber count)]));
     items ←? getProp response "items";
     _ ←? getProp items "length";
     Returned items)
    (λ _, Returned (JArray [])).

Definition completeItems (self : t) (itemIds : list string) : Outcome QueueError bool :=
  ecatch
    (_ ←? makeRequest "POST" ("/queue/" +:+ queueName self +:+ "/complete")
            (Some (JObject [("instance_id", JString (instanceId self));
                            ("items", JArray (JString <$> itemIds))]));
     Returned true)
    (λ _, Returned false).

Definition releaseItems (self : t) (itemIds : list string) : Outcome QueueError bool :=
  ecatch
    (_ ←? makeRequest "POST" ("/queue/" +:+ queueName self +:+ "/release")
            (Some (JObject [("instance_id", JString (instanceId self));
                            ("items", JArray (JString <$> itemIds))]));
     Returned true)
    (λ _, Returned false).

Definition getStats (self : t) : Outcome QueueError JSValue :=
  ecatch
    (response ←? makeRequest "GET" ("/queue/" +:+ queueName self +:+ "/stats") None;
     getProp response "stats")
    (λ _, Returned JNull).

Definition releaseInstance (self : t) : Outcome QueueError JSValue :=
  ecatch
    (response ←? makeRequest "POST" ("/queue/" +:+ queueName self +:+ "/release-instance")
                   (Some (JObject [("instance_id", JString (instanceId self))]));
     released_count ←? getProp response "released_count";
     Returned (if truthy released_count then released_count else JNumber 0))
    (λ _, Returned (JNumber 0)).

End WithTransport.

End RedisQueueClient.

(** ** Check store and coordinator ([class QueueManager]) *)

Module QueueManager.

Record Profile := {
  steam_id : string;
  username : string;
  timestamp : Z;
  checks : gmap string string
}.

(** An item as the queue service hands it out; [username] may be missing. *)
Module Item.
Record t := { id : string; username : option string }.
End Item.

(** The answer of [apiService.checkSteamIdExists]. *)
Record ExistsCheckResult := {
  success : bool;
  exists_ : bool;
  error : option string
}.

Record ApiService := {
  checkSteamIdExists : string → ExistsCheckResult
}.

(** [steam-validator.js] is not among the sources: what the call
    [steamValidator.getCooldownStatus()] does is a field of the validator. *)
Record SteamValidator := {
  getCooldownStatus : Outcome string CooldownManager.ConnectionStatus
}.

(** Modelled from the spec: [SteamValidator.getCooldownStatus], missing from
    the sources, hands out the cooldown controller's [connectionStatus()],
    which the spec says is used by the health gate. *)
Definition wiredValidator (cooldownFsOk : nat → bool) (now : Z)
    (cm : CooldownManager.t) : SteamValidator :=
  {| getCooldownStatus :=
       Returned (CooldownManager.getConnectionStatus cooldownFsOk now cm).1 |}.

(** The queue client seen from the store: what a claim yields.  Its methods
    absorb every error themselves, so a call never throws here. *)
Record RedisQueueClient := {
  claimItems : Z → list Item.t
}.

Inductive ServiceCall : Type :=
  | ClaimItems (count : Z)
  | ReleaseItems (itemIds : list string)
  | CompleteItems (itemIds : list string).

(** [profiles_queue.json] ([None]: absent or malformed), the number of
    writes attempted, and the calls made on the queue client, oldest first. *)
Record World := {
  queueFile : option (list Profile);
  fsWrites : nat;
  serviceCalls : list ServiceCall
}.

Record Env := {
  redisQueueClient : option RedisQueueClient;
  steamValidator : option SteamValidator;
  fsWriteOk : nat → bool;
  dateNow : Z
}.

(** State and exceptions. *)
Definition M (A : Type) : Type := World → Outcome string A * World.

Definition ret {A} (a : A) : M A := λ w, (Returned a, w).

Definition bind {A B} (m : M A) (k : A → M B) : M B :=
  λ w, match m w with
       | (Returned a, w') => k a w'
       | (Thrown e, w') => (Thrown e, w')
       end.

Definition throw {A} (message : string) : M A := λ w, (Thrown message, w).

Definition try_catch {A} (m : M A) (handler : string → M A) : M A :=
  λ w, match m w with
       | (Returned a, w') => (Returned a, w')
       | (Thrown e, w') => handler e w'
       end.

Definition get : M World := λ w, (Returned w, w).

Notation "x ←! m ; k" := (bind m (λ x, k))
  (at level 20, m at level 100, k at level 200, only parsing).
Notation "m ;;! k" := (bind m (λ _, k))
  (at level 100, k at level 200, right associativity, only parsing).

Definition CHECK_NAMES : list string :=
  ["animated_avatar"; "avatar_frame"; "mini_profile_background";
   "profile_background"; "steam_level"; "friends"; "csgo_inventory"].

Definition validStatuses : list string := ["to_check"; "passed"; "failed"; "deferred"].

(** The [checks] object of a new profile. *)
Definition initialChecks : gmap string string :=
  list_to_map ((λ name, (name, "to_check")) <$> CHECK_NAMES).

(** [Object.values(profile.checks).some(status => status === wanted)] *)
Definition someCheck (wanted : string) (profile : Profile) : bool :=
  existsb (λ status, bool_decide (status = wanted)) (map_to_list (checks profile)).*2.

(** A string holds the UTF-8 encoding of the JavaScript string.  [trim]
    strips the white space and line terminator code points, which are
    U+0009 to U+000D and U+0020 (one byte), U+00A0 (two bytes), and U+1680,
    U+2000 to U+200A, U+2028, U+2029, U+202F, U+205F, U+3000 and U+FEFF
    (three bytes). *)
Definition isWhite1 (a : ascii) : bool :=
  let a := nat_of_ascii a in
  ((9 <=? a) && (a <=? 13) || (a =? 32))%nat.

Definition isWhite2 (a b : ascii) : bool :=
  let a := nat_of_ascii a in
  let b := nat_of_ascii b in
  ((a =? 194) && (b =? 160))%nat.

Definition isWhite3 (a b c : ascii) : bool :=
  let a := nat_of_ascii a in
  let b := nat_of_ascii b in
  let c := nat_of_ascii c in
  ((a =? 225) && (b =? 154) && (c =? 128)
   || (a =? 226) && (b =? 128)
      && ((128 <=? c) && (c <=? 138) || (c =? 168) || (c =? 169) || (c =? 175))
   || (a =? 226) && (b =? 129) && (c =? 159)
   || (a =? 227) && (b =? 128) && (c =? 128)
   || (a =? 239) && (b =? 187) && (c =? 191))%nat.

(** [username.trim() === '']: the string is a sequence of such code
    points. *)
Fixpoint isBlank (s : string) : bool :=
  match s with
  | EmptyString => true
  | String a s1 =>
      if isWhite1 a then isBlank s1
      else
        match s1 with
        | EmptyString => false
        | String b s2 =>
            if isWhite2 a b then isBlank s2
            else
              match s2 with
              | EmptyString => false
              | String c s3 => isWhite3 a b c && isBlank s3
              end
        end
  end.

Definition findProfile (steamId : string) (profiles : list Profile) : option (nat * Profile) :=
  list_find (λ p, steam_id p = steamId) profiles.

(** [profile.checks[checkName] = status].  On an object without a key
    [__proto__] of its own that name is the accessor inherited from
    [Object.prototype], whose setter ignores a string: the object stays as
    it is.  With such a key of its own (as [JSON.parse] makes for a document
    that has one) the assignment writes it like any other. *)
Definition setCheck (checkName status : string) (p : Profile) : Profile :=
  if decide (checkName = "__proto__" ∧ checks p !! "__proto__" = None) then p
  else
    {| steam_id := steam_id p; username := username p; timestamp := timestamp p;
       checks := <[checkName := status]> (checks p) |}.

Section WithEnv.

Variable env : Env.

Definition readQueueProfiles : M (list Profile) :=
  λ w, (Returned (default [] (queueFile w)), w).

Definition getQueuedProfilesSync (w : World) : list Profile := default [] (queueFile w).

Definition writeQueueProfiles (profiles : list Profile) : M bool :=
  λ w, if fsWriteOk env (fsWrites w)
       then (Returned true,
             {| queueFile := Some profiles; fsWrites := S (fsWrites w);
                serviceCalls := serviceCalls w |})
       else (Returned false,
             {| queueFile := queueFile w; fsWrites := S (fsWrites w);
                serviceCalls := serviceCalls w |}).

Definition callService (call : ServiceCall) : M unit :=
  λ w, (Returned (),
        {| queueFile := queueFile w; fsWrites := fsWrites w;
           serviceCalls := serviceCalls w ++ [call] |}).

Definition addProfileToQueue (steamId : string) (username : option string)
    (apiService : option ApiService) : M (option Profile) :=
  try_catch
    (profiles ←! readQueueProfiles;
     match findProfile steamId profiles with
     | Some (_, existing) => ret (Some existing)
     | None =>
         let existsInDatabase :=
           match apiService with
           | Some api =>
               let existsCheckResult := checkSteamIdExists api steamId in
               success existsCheckResult && exists_ existsCheckResult
           | None => false
           end in
         if existsInDatabase then ret None
         else
           let username :=
             match username with
             | Some u => if isBlank u then "Professor" else u
             | None => "Professor"
             end in
           let profile :=
             {| steam_id := steamId; username := username; timestamp := dateNow env;
                checks := initialChecks |} in
           saveSuccess ←! writeQueueProfiles (profiles ++ [profile]);
           if saveSuccess : bool then ret (Some profile)
           else throw "Failed to save updated queue"
     end)
    (λ error, throw error).

Definition updateProfileCheck (steamId checkName status : string) : M bool :=
  try_catch
    (profiles ←! readQueueProfiles;
     match findProfile steamId profiles with
     | None => ret false
     | Some (profileIndex, _) =>
         if negb (bool_decide (status ∈ validStatuses)) then ret false
         else
           saveSuccess ←! writeQueueProfiles
                            (alter (setCheck checkName status) profileIndex profiles);
           if saveSuccess : bool then ret true
           else throw "Failed to save updated profile check"
     end)
    (λ _, ret false).

Definition removeProfileFromQueue (steamId : string) : M bool :=
  try_catch
    (profiles ←! readQueueProfiles;
     let filteredProfiles := filter (λ p, steam_id p ≠ steamId) profiles in
     if (length filteredProfiles <? length profiles)%nat then
       saveSuccess ←! writeQueueProfiles filteredProfiles;
       if saveSuccess : bool then
         match redisQueueClient env with
         | Some _ => callService (CompleteItems [steamId])
         | None => ret ()
         end ;;!
         ret true
       else throw "Failed to save queue after profile removal"
     else ret false)
    (λ _, ret false).

Definition isHealthyToClaimWork (w : World) : bool :=
  let profiles := getQueuedProfilesSync w in
  let hasDeferredChecks := existsb (someCheck "deferred") profiles in
  if hasDeferredChecks then false
  else
    match steamValidator env with
    | None => true
    | Some validator =>
        match getCooldownStatus validator with
        | Returned connectionStatus =>
            let hasHealthyEndpoint :=
              existsb (λ endpoint, 0 <? CooldownManager.availableConnections endpoint)
                      (CooldownManager.endpointSummary connectionStatus).*2 in
            if negb hasHealthyEndpoint then false else true
        | Thrown _ => false
        end
    end.

(** The body of the [for (const item of items)] loop and the loop itself. *)
Definition pullItem (item : Item.t) (addedCount : Z) : M Z :=
  try_catch
    (profile ←! addProfileToQueue (Item.id item) (Item.username item) None;
     match profile with
     | Some _ => ret (addedCount + 1)
     | None => callService (ReleaseItems [Item.id item]) ;;! ret addedCount
     end)
    (λ _, callService (ReleaseItems [Item.id item]) ;;! ret addedCount).

Fixpoint pullLoop (items : list Item.t) (addedCount : Z) : M Z :=
  match items with
  | [] => ret addedCount
  | item :: rest => addedCount' ←! pullItem item addedCount; pullLoop rest addedCount'
  end.

Definition pullFromRedisQueue (count : Z) : M Z :=
  match redisQueueClient env with
  | None => ret 0
  | Some client =>
      w ←! get;
      if negb (isHealthyToClaimWork w) then ret 0
      else
        try_catch
          (callService (ClaimItems count) ;;!
           let items := claimItems client count in
           if (length items =? 0)%nat then ret 0
           else pullLoop items 0)
          (λ _, ret 0)
  end.

(** The two scans of [getNextProcessableProfile]. *)
Fixpoint firstPass (profiles : list Profile) : option Profile :=
  match profiles with
  | [] => None
  | profile :: rest =>
      let hasToCheck := someCheck "to_check" profile in
      let hasDeferred := someCheck "deferred" profile in
      if hasToCheck then Some profile
      else if negb hasToCheck && negb hasDeferred then Some profile
      else firstPass rest
  end.

Fixpoint secondPass (profiles : list Profile) : option Profile :=
  match profiles with
  | [] => None
  | profile :: rest =>
      let hasDeferred := someCheck "deferred" profile in
      if hasDeferred then Some profile else secondPass rest
  end.

(** [getNextProcessableProfile] calls itself after a successful pull;
    [fuel] bounds the depth, and [None] means the bound was reached. *)
Fixpoint getNextProcessableProfile (fuel : nat) (w : World)
    : option (Outcome string (option Profile) * World) :=
  match fuel with
  | O => None
  | S fuel' =>
      let profiles := default [] (queueFile w) in
      if bool_decide (length profiles = 0%nat) && bool_decide (is_Some (redisQueueClient env))
      then
        match pullFromRedisQueue 5 w with
        | (Returned pulledCount, w') =>
            if 0 <? pulledCount then getNextProcessableProfile fuel' w'
            else Some (Returned None, w')
        | (Thrown e, w') => Some (Thrown e, w')
        end
      else if bool_decide (length profiles = 0%nat) then Some (Returned None, w)
      else
        match firstPass profiles with
        | Some profile => Some (Returned (Some profile), w)
        | None => Some (Returned (secondPass profiles), w)
        end
  end.

(** One profile of the sweep: the rewritten profile and how many checks
    were rewritten. *)
Definition convertProfile (profile : Profile) : Profile * Z :=
  ({| steam_id := steam_id profile; username := username profile;
      timestamp := timestamp profile;
      checks := (λ status, if decide (status = "deferred") then "to_check" else status)
                  <$> checks profile |},
   Z.of_nat (length (filter (λ status, status = "deferred")
                            (map_to_list (checks profile)).*2))).

Definition convertDeferredChecksToToCheck : M (Z * Z) :=
  try_catch
    (profiles ←! readQueueProfiles;
     let converted := convertProfile <$> profiles in
     let conversionsCount := foldr Z.add 0 converted.*2 in
     let profilesAffected := Z.of_nat (length (filter (λ c, 0 < c.2) converted)) in
     if 0 <? conversionsCount then
       saveSuccess ←! writeQueueProfiles converted.*1;
       if saveSuccess : bool then ret (conversionsCount, profilesAffected)
       else throw "Failed to save converted deferred checks"
     else ret (conversionsCount, profilesAffected))
    (λ _, ret (0, 0)).

Definition processNextQueued : M (option Profile) :=
  profiles ←! readQueueProfiles;
  ret (head profiles).

Definition getProfileBySteamId (steamId : string) : M (option Profile) :=
  profiles ←! readQueueProfiles;
  ret (snd <$> findProfile steamId profiles).

(** [Object.values(profile.checks).every(status => accept status)] *)
Definition everyCheck (accept : string → bool) (profile : Profile) : bool :=
  forallb accept (map_to_list (checks profile)).*2.

Definition getAllChecksPassed (steamId : string) : M bool :=
  profiles ←! readQueueProfiles;
  match findProfile steamId profiles with
  | None => ret false
  | Some (_, profile) => ret (everyCheck (λ status, bool_decide (status = "passed")) profile)
  end.

(** The pair is [(allComplete, allPassed)]. *)
Definition getAllChecksComplete (steamId : string) : M (bool * bool) :=
  profiles ←! readQueueProfiles;
  match findProfile steamId profiles with
  | None => ret (false, false)
  | Some (_, profile) =>
      ret (everyCheck (λ status, bool_decide (status = "passed") || bool_decide (status = "failed"))
                      profile,
           everyCheck (λ status, bool_decide (status = "passed")) profile)
  end.

Definition countDeferred (profile : Profile) : Z :=
  Z.of_nat (length (filter (λ status, status = "deferred") (map_to_list (checks profile)).*2)).

Record DeferredCheckStats := {
  totalDeferred : Z;
  profilesWithDeferred : Z;
  totalProfiles : Z
}.

Definition getDeferredCheckStats : M DeferredCheckStats :=
  profiles ←! readQueueProfiles;
  ret {| totalDeferred := foldr Z.add 0 (countDeferred <$> profiles);
         profilesWithDeferred :=
           Z.of_nat (length (filter (λ profile, 0 < countDeferred profile) profiles));
         totalProfiles := Z.of_nat (length profiles) |}.

(** The pairs are [(steamId, checkType)]; within one profile they come in
    the order of the map, not in the insertion order of the object. *)
Definition getDeferredChecksFromQueue : M (list (string * string)) :=
  profiles ←! readQueueProfiles;
  ret (profile ← profiles;
       (λ entry, (steam_id profile, entry.1))
         <$> filter (λ entry, entry.2 = "deferred") (map_to_list (checks profile))).

Definition updateProfileCheckExternal (steamId checkName status : string) : M bool :=
  try_catch (updateProfileCheck steamId checkName status) (λ _, ret false).

End WithEnv.

(** The store operations, as data. *)
Inductive Op : Type :=
  | AddProfile (steamId : string) (username : option string) (apiService : option ApiService)
  | UpdateCheck (steamId checkName status : string)
  | RemoveProfile (steamId : string)
  | ConvertDeferred.

Definition run (env : Env) (op : Op) (w : World) : World :=
  match op with
  | AddProfile steamId username apiService => (addProfileToQueue env steamId username apiService w).2
  | UpdateCheck steamId checkName status => (updateProfileCheck env steamId checkName status w).2
  | RemoveProfile steamId => (removeProfileFromQueue env steamId w).2
  | ConvertDeferred => (convertDeferredChecksToToCheck env w).2
  end.

End QueueManager.

(** ** Statements about the cooldown controller *)

Module CooldownSpec.
Import CooldownManager.

(** What can happen to a controller. *)
Inductive Op : Type :=
  | MarkCooldown (now : Z) (endpoint errorType errorMessage : string)
  | HandleError (now : Z) (error : RequestError) (connectionInfo : option string)
  | ResetOnSuccess (endpoint : string)
  | CleanupExpired (now : Z)
  | Restart.

Definition run (fsWriteOk : nat → bool) (op : Op) (cm : t) : t :=
  match op with
  | MarkCooldown now endpoint errorType errorMessage =>
      markEndpointCooldown fsWriteOk now endpoint errorType errorMessage cm
  | HandleError now error connectionInfo =>
      (handleRequestError fsWriteOk now error connectionInfo cm).2
  | ResetOnSuccess endpoint => resetBackoffOnSuccess fsWriteOk endpoint cm
  | CleanupExpired now => (cleanupExpiredCooldowns fsWriteOk now cm).2
  | Restart => restart fsWriteOk cm
  end.

(** Every [backoff_level] written in a document is an index of a sequence of
    [len] entries. *)
Definition recordsBounded (len : nat) (m : gmap string EndpointCooldown) : Prop :=
  ∀ e c l, m !! e = Some c → backoff_level c = Some l → 0 ≤ l < Z.of_nat len.

Definition levelsBounded (cm : t) : Prop :=
  ∀ e l, backoffLevels cm !! e = Some l → 0 ≤ l < Z.of_nat (length (backoffSequence cm)).

Definition wellFormed (cm : t) : Prop :=
  backoffSequence cm ≠ [] ∧ levelsBounded cm ∧
  recordsBounded (length (backoffSequence cm)) (cooldowns cm) ∧
  recordsBounded (length (backoffSequence cm)) (cooldownFile cm).

(** Controllers that started without a cooldown file. *)
Inductive reachable (fsWriteOk : nat → bool) : t → Prop :=
  | reachable_fresh durations sequence writes :
      reachable fsWriteOk (construct fsWriteOk durations sequence None writes)
  | reachable_step cm op :
      reachable fsWriteOk cm → reachable fsWriteOk (run fsWriteOk op cm).

(** The seven substrings [getEndpointName] looks for. *)
Definition endpointMarkers : list string :=
  ["GetFriendList"; "inventory"; "GetSteamLevel"; "GetAnimatedAvatar";
   "GetAvatarFrame"; "GetMiniProfileBackground"; "GetProfileBackground"].

Definition allWritesOk : nat → bool := λ _, true.

Definition sampleDurations : CooldownDurations :=
  {| connection_reset := 30000; timeout := 60000; dns_failure := 120000 |}.

(** A fresh controller with sequence [1; 2; 4] after one rate limit on
    [friends] at time 0. *)
Definition limitedOnce : t :=
  markEndpointCooldown allWritesOk 0 "friends" "429" "Too Many Requests"
    (construct allWritesOk sampleDurations [1; 2; 4] None 0).

End CooldownSpec.

(** ** Logger ([utils/logger.js]) *)

Module Logger.

(** What [LOG_LEVELS[key]] reads: one of the four ranks, a property
    inherited from [Object.prototype] (kept as the string a comparison turns
    it into), or [undefined]. *)
Inductive Slot : Type :=
  | Rank (n : Z)
  | Inherited (primitive : string)
  | Missing.

Definition objectPrototypeNames : list string :=
  ["constructor"; "__defineGetter__"; "__defineSetter__"; "hasOwnProperty";
   "__lookupGetter__"; "__lookupSetter__"; "isPrototypeOf"; "propertyIsEnumerable";
   "toString"; "valueOf"; "__proto__"; "toLocaleString"].

(** How Node prints a built-in function. *)
Definition nativeFunction (name : string) : string :=
  "function " +:+ name +:+ "() { [native code] }".

(** The string an inherited property converts to: [__proto__] reads
    [Object.prototype] itself, [constructor] reads [Object], the others are
    methods of their own name. *)
Definition inheritedPrimitive (key : string) : string :=
  if decide (key = "__proto__") then "[object Object]"
  else if decide (key = "constructor") then nativeFunction "Object"
  else nativeFunction key.

Definition LOG_LEVELS (key : string) : Slot :=
  if decide (key = "debug") then Rank 0
  else if decide (key = "info") then Rank 1
  else if decide (key = "warn") then Rank 2
  else if decide (key = "error") then Rank 3
  else if bool_decide (key ∈ objectPrototypeNames) then Inherited (inheritedPrimitive key)
  else Missing.

(** [LOG_LEVELS[key] !== undefined ? LOG_LEVELS[key] : LOG_LEVELS.info] *)
Definition levelOrInfo (key : string) : Slot :=
  match LOG_LEVELS key with
  | Missing => Rank 1
  | slot => slot
  end.

(** [selfLevel] is [this.level].  [messageLevel >= currentLevel] compares two
    numbers as numbers and two inherited values as the strings they convert
    to; a number against such a string compares with [NaN] and is false. *)
Definition _shouldLog (selfLevel level : string) : bool :=
  match levelOrInfo selfLevel, levelOrInfo level with
  | Rank currentLevel, Rank messageLevel => currentLevel <=? messageLevel
  | Inherited currentLevel, Inherited messageLevel => String.leb currentLevel messageLevel
  | _, _ => false
  end.

End Logger.

(** ** Statements about the check store *)

Module StoreSpec.
Import QueueManager.

Definition checkNameSet : gset string := list_to_set CHECK_NAMES.

Definition statusesValid (p : Profile) : Prop :=
  ∀ name status, checks p !! name = Some status → status ∈ validStatuses.

(** No check is missing. *)
Definition checksComplete (p : Profile) : Prop :=
  checkNameSet ⊆ dom (checks p) ∧ statusesValid p.

(** No check is missing and there is no other key. *)
Definition checksExact (p : Profile) : Prop :=
  dom (checks p) = checkNameSet ∧ statusesValid p.

Definition opWellNamed (op : Op) : Prop :=
  match op with
  | UpdateCheck _ checkName _ => checkName ∈ CHECK_NAMES
  | _ => True
  end.

(** States built from an empty store by store operations whose check names
    are among the seven. *)
Inductive reachable (env : Env) : World → Prop :=
  | reachable_empty w : getQueuedProfilesSync w = [] → reachable env w
  | reachable_step w op :
      reachable env w → opWellNamed op → reachable env (run env op w).

(** Same, with any check name. *)
Inductive reachableAny (env : Env) : World → Prop :=
  | reachableAny_empty w : getQueuedProfilesSync w = [] → reachableAny env w
  | reachableAny_step w op : reachableAny env w → reachableAny env (run env op w).

(** The profile a [getNextProcessableProfile] scan settles on: the first one
    with work outstanding or with nothing but terminal checks, else the first
    one with a deferred check. *)
Definition processableNow (p : Profile) : bool :=
  someCheck "to_check" p || negb (someCheck "deferred" p).

Definition select (profiles : list Profile) : option Profile :=
  match List.find processableNow profiles with
  | Some p => Some p
  | None => List.find (someCheck "deferred") profiles
  end.

Definition allTerminal (p : Profile) : bool :=
  negb (someCheck "to_check" p) && negb (someCheck "deferred" p).

(** The selection in the words of the specification's summary: first a
    profile with a [to_check] check, failing that an all-terminal one,
    failing that one with a deferred check. *)
Definition selectByPriority (profiles : list Profile) : option Profile :=
  match List.find (someCheck "to_check") profiles with
  | Some p => Some p
  | None =>
      match List.find allTerminal profiles with
      | Some p => Some p
      | None => List.find (someCheck "deferred") profiles
      end
  end.

Definition setCalls (calls : list ServiceCall) (w : World) : World :=
  {| queueFile := queueFile w; fsWrites := fsWrites w; serviceCalls := calls |}.

(** One add of the pull loop: the item, whether its id was in the store
    when its turn came, and what [addProfileToQueue] did. *)
Record Attempt := {
  item : Item.t;
  present : bool;
  outcome : Outcome string (option Profile)
}.

Definition notAdded (a : Attempt) : bool :=
  match outcome a with
  | Returned (Some _) => false
  | _ => true
  end.

(** The adds of a batch, one after the other, with the probe the caller
    passes (the pull loop passes none). *)
Fixpoint addAttempts (env : Env) (apiService : option ApiService)
    (items : list Item.t) (w : World) : list Attempt :=
  match items with
  | [] => []
  | it :: rest =>
      let r := addProfileToQueue env (Item.id it) (Item.username it) apiService w in
      {| item := it;
         present := bool_decide (is_Some (findProfile (Item.id it) (getQueuedProfilesSync w)));
         outcome := r.1 |}
      :: addAttempts env apiService rest r.2
  end.

Fixpoint afterAttempts (env : Env) (apiService : option ApiService)
    (items : list Item.t) (w : World) : World :=
  match items with
  | [] => w
  | it :: rest =>
      afterAttempts env apiService rest
        (addProfileToQueue env (Item.id it) (Item.username it) apiService w).2
  end.

Definition releasedIds (calls : list ServiceCall) : list string :=
  flat_map (λ call, match call with ReleaseItems itemIds => itemIds | _ => [] end) calls.

(** The releases in the words of the specification: every add is made
    with the existence probe, and an item goes back when the add found it
    already present, was suppressed by the probe, or failed. *)
Definition releasedWithProbe (env : Env) (api : ApiService)
    (items : list Item.t) (w : World) : list string :=
  Item.id ∘ item <$>
    filter (λ a, present a = true ∨ notAdded a = true) (addAttempts env (Some api) items w).

(** What the pull loop sends back and what it counts, given the adds. *)
Definition releaseCalls (attempts : list Attempt) : list ServiceCall :=
  (λ a, ReleaseItems [Item.id (item a)]) <$> filter (λ a, notAdded a = true) attempts.

Definition addedCount (attempts : list Attempt) : Z :=
  Z.of_nat (length (filter (λ a, notAdded a = false) attempts)).

Definition noDeferred (profiles : list Profile) : Prop :=
  ∀ p, p ∈ profiles → ∀ name, checks p !! name ≠ Some "deferred".

(** *** Concrete environments and stores

    Every write succeeds unless said otherwise. *)
Definition plainEnv : Env :=
  {| redisQueueClient := None; steamValidator := None;
     fsWriteOk := λ _, true; dateNow := 1700000000000 |}.

Definition emptyWorld : World :=
  {| queueFile := Some []; fsWrites := 0; serviceCalls := [] |}.

Definition worldWithAlice : World :=
  run plainEnv (AddProfile "A" (Some "alice") None) emptyWorld.

(** A probe that knows every id. *)
Definition probeKnowsAll : ApiService :=
  {| checkSteamIdExists := λ _, {| success := true; exists_ := true; error := None |} |}.

(** A user name of a no-break space (U+00A0) and a space. *)
Definition blankName : string := String "194"%char (String "160"%char " ").

(** A probe that knows no id. *)
Definition probeKnowsNone : ApiService :=
  {| checkSteamIdExists := λ _, {| success := true; exists_ := false; error := None |} |}.

Definition itemB : Item.t := {| Item.id := "B"; Item.username := Some "" |}.
Definition itemA : Item.t := {| Item.id := "A"; Item.username := Some "alice" |}.

Definition envClaiming (items : list Item.t) : Env :=
  {| redisQueueClient := Some {| claimItems := λ _, items |}; steamValidator := None;
     fsWriteOk := λ _, true; dateNow := 1700000000000 |}.

(** The first write fails, later ones succeed. *)
Definition envFirstWriteFails : Env :=
  {| redisQueueClient := Some {| claimItems := λ _, [itemB; itemA] |};
     steamValidator := None;
     fsWriteOk := λ n, negb (n =? 0)%nat; dateNow := 1700000000000 |}.

(** A validator whose status call throws. *)
Definition envBrokenValidator : Env :=
  {| redisQueueClient := Some {| claimItems := λ _, [itemB; itemA] |};
     steamValidator := Some {| getCooldownStatus := Thrown "cooldowns is null" |};
     fsWriteOk := λ _, true; dateNow := 1700000000000 |}.

Definition allChecks (status : string) : gmap string string :=
  list_to_map ((λ name, (name, status)) <$> CHECK_NAMES).

Definition profileDone : Profile :=
  {| steam_id := "T"; username := "tess"; timestamp := 1; checks := allChecks "passed" |}.

Definition profileTodo : Profile :=
  {| steam_id := "A"; username := "alice"; timestamp := 2; checks := allChecks "to_check" |}.

Definition profileDeferred : Profile :=
  {| steam_id := "D"; username := "dan"; timestamp := 0;
     checks := <["friends" := "deferred"]> (allChecks "passed") |}.

Definition worldDoneThenTodo : World :=
  {| queueFile := Some [profileDone; profileTodo]; fsWrites := 0; serviceCalls := [] |}.

Definition worldDeferredThenTodo : World :=
  {| queueFile := Some [profileDeferred; profileTodo]; fsWrites := 0; serviceCalls := [] |}.

(** At most one profile per id. *)
Definition uniqueIds (profiles : list Profile) : Prop := NoDup (steam_id <$> profiles).

(** The profile [addProfileToQueue] builds, and whether the probe makes it
    skip the insert. *)
Definition newProfile (env : Env) (steamId : string) (username : option string) : Profile :=
  {| steam_id := steamId;
     username := match username with
                 | Some u => if isBlank u then "Professor" else u
                 | None => "Professor"
                 end;
     timestamp := dateNow env;
     checks := initialChecks |}.

Definition probeSaysExists (apiService : option ApiService) (steamId : string) : bool :=
  match apiService with
  | Some api =>
      success (checkSteamIdExists api steamId) && exists_ (checkSteamIdExists api steamId)
  | None => false
  end.

(** The store after an insert of [profile]. *)
Definition inserted (profile : Profile) (w : World) : World :=
  {| queueFile := Some (getQueuedProfilesSync w ++ [profile])%list;
     fsWrites := S (fsWrites w); serviceCalls := serviceCalls w |}.

Definition envAllWritesFail : Env :=
  {| redisQueueClient := None; steamValidator := None;
     fsWriteOk := λ _, false; dateNow := 1700000000000 |}.

(** What a lookup by id finds after the profile at index [i] has been
    rewritten by [g]. *)
Definition tagAltered (g : Profile → Profile) (i : nat) (found : nat * Profile)
    : nat * Profile :=
  (found.1, if decide (found.1 = i) then g found.2 else found.2).

End StoreSpec.

(** * Properties of the cooldown controller *)

Module CooldownFacts.
Import CooldownManager.

Section Facts.

Variable fsWriteOk : nat → bool.

Lemma saveCooldowns_cooldowns cm : cooldowns (saveCooldowns fsWriteOk cm) = cooldowns cm.
Proof. reflexivity. Qed.

Lemma saveCooldowns_backoffLevels cm :
  backoffLevels (saveCooldowns fsWriteOk cm) = backoffLevels cm.
Proof. reflexivity. Qed.

(** After the loop, an entry is gone exactly when its name was visited and
    its deadline had passed. *)
Lemma cleanupLoop_lookup now names : ∀ m n e,
  (cleanupLoop now names m n).1 !! e =
  match m !! e with
  | Some c => if bool_decide (e ∈ names) && (cooldown_until c <=? now) then None else Some c
  | None => None
  end.
Proof.
  induction names as [|x names IH]; intros m n e; simpl.
  - destruct (m !! e); reflexivity.
  - destruct (m !! x) as [cx|] eqn:Hx.
    + destruct (cooldown_until cx <=? now) eqn:Hexp.
      * rewrite IH. destruct (decide (e = x)) as [->|Hne].
        -- rewrite lookup_delete_eq, Hx, Hexp.
           rewrite bool_decide_eq_true_2 by set_solver. reflexivity.
        -- rewrite lookup_delete_ne by congruence.
           destruct (m !! e) as [c|]; [|reflexivity].
           rewrite (bool_decide_ext (e ∈ names) (e ∈ x :: names)); [reflexivity|].
           rewrite elem_of_cons. split; [by right | by intros [?|?]].
      * rewrite IH. destruct (m !! e) as [c|] eqn:He; [|reflexivity].
        destruct (decide (e = x)) as [->|Hne].
        -- assert (c = cx) as -> by congruence. rewrite Hexp.
           rewrite !andb_false_r. reflexivity.
        -- rewrite (bool_decide_ext (e ∈ names) (e ∈ x :: names)); [reflexivity|].
           rewrite elem_of_cons. split; [by right | by intros [?|?]].
    + rewrite IH. destruct (m !! e) as [c|] eqn:He; [|reflexivity].
      rewrite (bool_decide_ext (e ∈ names) (e ∈ x :: names)); [reflexivity|].
      split; [set_solver|]. intros Hin. apply elem_of_cons in Hin as [->|]; [congruence|done].
Qed.

Lemma cleanupLoop_count_mono now names : ∀ m n, (n ≤ (cleanupLoop now names m n).2)%nat.
Proof.
  induction names as [|x names IH]; intros m n; simpl; [lia|].
  destruct (m !! x) as [cx|]; [|apply IH].
  destruct (cooldown_until cx <=? now); [|apply IH].
  specialize (IH (delete x m) (S n)). lia.
Qed.

(** Nothing expired among the visited names: the loop changes nothing. *)
Lemma cleanupLoop_none_expired now names : ∀ m n,
  (∀ e c, e ∈ names → m !! e = Some c → now < cooldown_until c) →
  cleanupLoop now names m n = (m, n).
Proof.
  induction names as [|x names IH]; intros m n Hall; simpl; [reflexivity|].
  destruct (m !! x) as [cx|] eqn:Hx.
  - assert (now < cooldown_until cx) as Hlt by (apply (Hall x); [set_solver|done]).
    apply Z.leb_gt in Hlt. rewrite Hlt. apply IH. intros e c He. apply Hall. set_solver.
  - apply IH. intros e c He. apply Hall. set_solver.
Qed.

(** Something expired among the visited names: the counter moves. *)
Lemma cleanupLoop_some_expired now names : ∀ m n e c,
  e ∈ names → m !! e = Some c → cooldown_until c ≤ now →
  (n < (cleanupLoop now names m n).2)%nat.
Proof.
  induction names as [|x names IH]; intros m n e c Hin He Hexp; simpl.
  - set_solver.
  - destruct (m !! x) as [cx|] eqn:Hx.
    + destruct (cooldown_until cx <=? now) eqn:Hcx.
      * pose proof (cleanupLoop_count_mono now names (delete x m) (S n)). lia.
      * apply elem_of_cons in Hin as [->|Hin].
        -- assert (c = cx) as -> by congruence. apply Z.leb_gt in Hcx. lia.
        -- eapply IH; eauto.
    + apply elem_of_cons in Hin as [->|Hin]; [congruence|]. eapply IH; eauto.
Qed.

Lemma cleanupLoop_counted now names : ∀ m n,
  (n < (cleanupLoop now names m n).2)%nat →
  ∃ e c, m !! e = Some c ∧ cooldown_until c ≤ now.
Proof.
  induction names as [|x names IH]; intros m n Hlt; simpl in Hlt; [lia|].
  destruct (m !! x) as [cx|] eqn:Hx; [|by apply (IH m n)].
  destruct (cooldown_until cx <=? now) eqn:Hcx; [|by apply (IH m n)].
  exists x, cx. split; [done|]. by apply Z.leb_le.
Qed.

Lemma keys_elem_of (m : gmap string EndpointCooldown) e :
  e ∈ (map_to_list m).*1 ↔ is_Some (m !! e).
Proof.
  rewrite list_elem_of_fmap. split.
  - intros [[k c] [-> Hin]]. apply elem_of_map_to_list in Hin. eauto.
  - intros [c Hc]. exists (e, c). split; [done|]. by apply elem_of_map_to_list.
Qed.

Lemma cleanupExpiredCooldowns_lookup now cm e :
  cooldowns (cleanupExpiredCooldowns fsWriteOk now cm).2 !! e =
  match cooldowns cm !! e with
  | Some c => if cooldown_until c <=? now then None else Some c
  | None => None
  end.
Proof.
  unfold cleanupExpiredCooldowns.
  pose proof (cleanupLoop_lookup now (map_to_list (cooldowns cm)).*1 (cooldowns cm) 0 e) as H.
  destruct (cleanupLoop now (map_to_list (cooldowns cm)).*1 (cooldowns cm) 0) as [m n].
  simpl in *. assert (cooldowns (if (0 <? n)%nat then
     saveCooldowns fsWriteOk (set_cooldowns m cm) else set_cooldowns m cm) = m) as ->
    by (destruct (0 <? n)%nat; reflexivity).
  rewrite H. destruct (cooldowns cm !! e) as [c|] eqn:He; [|reflexivity].
  rewrite bool_decide_eq_true_2; [reflexivity|]. apply keys_elem_of. eauto.
Qed.

Lemma cleanupExpiredCooldowns_backoffLevels now cm :
  backoffLevels (cleanupExpiredCooldowns fsWriteOk now cm).2 = backoffLevels cm.
Proof.
  unfold cleanupExpiredCooldowns.
  destruct (cleanupLoop now (map_to_list (cooldowns cm)).*1 (cooldowns cm) 0) as [m n].
  simpl. destruct (0 <? n)%nat; reflexivity.
Qed.

Lemma cleanupExpiredCooldowns_backoffSequence now cm :
  backoffSequence (cleanupExpiredCooldowns fsWriteOk now cm).2 = backoffSequence cm.
Proof.
  unfold cleanupExpiredCooldowns.
  destruct (cleanupLoop now (map_to_list (cooldowns cm)).*1 (cooldowns cm) 0) as [m n].
  simpl. destruct (0 <? n)%nat; reflexivity.
Qed.

(** The count is positive exactly when some deadline had passed. *)
Lemma cleanupExpiredCooldowns_count now cm :
  (0 < (cleanupExpiredCooldowns fsWriteOk now cm).1)%nat ↔
  ∃ e c, cooldowns cm !! e = Some c ∧ cooldown_until c ≤ now.
Proof.
  unfold cleanupExpiredCooldowns.
  destruct (cleanupLoop now (map_to_list (cooldowns cm)).*1 (cooldowns cm) 0)
    as [m n] eqn:Hloop. simpl. split.
  - intros Hpos. apply (cleanupLoop_counted now (map_to_list (cooldowns cm)).*1 _ 0%nat).
    by rewrite Hloop.
  - intros (e & c & He & Hexp).
    pose proof (cleanupLoop_some_expired now _ (cooldowns cm) 0%nat e c
                  (proj2 (keys_elem_of _ e) (ex_intro _ c He)) He Hexp) as H.
    rewrite Hloop in H. exact H.
Qed.

(** Cleaning up does not change which endpoints are available at that
    moment: it only drops entries that no longer block. *)
Lemma cleanup_keeps_availability now endpoint cm :
  isEndpointAvailable now endpoint (cleanupExpiredCooldowns fsWriteOk now cm).2 =
  isEndpointAvailable now endpoint cm.
Proof.
  unfold isEndpointAvailable. rewrite cleanupExpiredCooldowns_lookup.
  destruct (cooldowns cm !! endpoint) as [c|]; [|done].
  by destruct (cooldown_until c <=? now) eqn:H.
Qed.

(** The summary reports an available connection exactly for the
    endpoints that are available. *)
Lemma getConnectionStatus_available now cm :
  (∃ name summary,
      (name, summary) ∈ endpointSummary (getConnectionStatus fsWriteOk now cm).1 ∧
      0 < availableConnections summary) ↔
  ∃ endpoint, endpoint ∈ allEndpoints ∧ isEndpointAvailable now endpoint cm = true.
Proof.
  unfold getConnectionStatus. cbn [fst endpointSummary]. split.
  - intros (name & summary & Hin & Hpos).
    apply list_elem_of_fmap in Hin as (endpoint & [= -> ->] & Hin).
    exists endpoint. split; [done|]. cbn [availableConnections] in Hpos.
    rewrite cleanup_keeps_availability in Hpos.
    by destruct (isEndpointAvailable now endpoint cm).
  - intros (endpoint & Hin & Hav). eexists endpoint, _. split.
    + apply list_elem_of_fmap. exists endpoint. split; [reflexivity|done].
    + cbn [availableConnections]. by rewrite cleanup_keeps_availability, Hav.
Qed.

(** What one rate-limit signal writes. *)
Lemma markEndpointCooldown_429 now e msg cm :
  let newLevel := Z.min (default 0 (backoffLevels cm !! e) + 1)
                        (Z.of_nat (length (backoffSequence cm)) - 1) in
  let cm' := markEndpointCooldown fsWriteOk now e "429" msg cm in
  backoffLevels cm' = <[e := newLevel]> (backoffLevels cm) ∧
  cooldowns cm' =
    <[e := {| cooldown_until := now + seqAt (backoffSequence cm) newLevel * 60 * 1000;
              reason := "429"; backoff_level := Some newLevel; applied_at := now;
              error_message := msg;
              duration_minutes := Some (seqAt (backoffSequence cm) newLevel);
              duration_used := None |}]> (cooldowns cm) ∧
  backoffSequence cm' = backoffSequence cm.
Proof. repeat split. Qed.

(** The index used by [markEndpointCooldown] is inside the sequence. *)
Lemma level_in_range e cm :
  backoffSequence cm ≠ [] → 0 ≤ default 0 (backoffLevels cm !! e) →
  let newLevel := Z.min (default 0 (backoffLevels cm !! e) + 1)
                        (Z.of_nat (length (backoffSequence cm)) - 1) in
  0 ≤ newLevel < Z.of_nat (length (backoffSequence cm)) ∧
  backoffSequence cm !! Z.to_nat newLevel = Some (seqAt (backoffSequence cm) newLevel).
Proof.
  intros Hne Hpos newLevel.
  assert (0 < length (backoffSequence cm))%nat
    by (destruct (backoffSequence cm); [done | simpl; lia]).
  assert (0 ≤ newLevel < Z.of_nat (length (backoffSequence cm))) as Hr
    by (unfold newLevel; lia).
  split; [exact Hr|]. unfold seqAt.
  destruct (newLevel <? 0) eqn:Hn; [apply Z.ltb_lt in Hn; lia|].
  destruct (lookup_lt_is_Some_2 (backoffSequence cm) (Z.to_nat newLevel)) as [x Hx]; [lia|].
  by rewrite Hx.
Qed.

(** [k] signals in a row move the level [k] steps up, to the last index at
    most. *)
Lemma mark429s_level e calls : ∀ cm,
  calls ≠ [] → backoffSequence cm ≠ [] → 0 ≤ default 0 (backoffLevels cm !! e) →
  backoffLevels (mark429s fsWriteOk e calls cm) !! e =
  Some (Z.min (default 0 (backoffLevels cm !! e) + Z.of_nat (length calls))
              (Z.of_nat (length (backoffSequence cm)) - 1)).
Proof.
  induction calls as [|[now msg] calls IH]; intros cm Hcalls Hseq Hpos; [done|].
  assert (0 < length (backoffSequence cm))%nat
    by (destruct (backoffSequence cm); [done | simpl; lia]).
  destruct (markEndpointCooldown_429 now e msg cm) as (Hl & _ & Hs).
  cbn [mark429s]. destruct calls as [|c calls].
  - cbn [mark429s length]. rewrite Hl, lookup_insert_eq. f_equal; lia.
  - rewrite IH; [|done|by rewrite Hs|by rewrite Hl, lookup_insert_eq; simpl; lia].
    rewrite Hs, Hl, lookup_insert_eq. simpl. f_equal.
    clear IH Hl Hs Hcalls Hseq.
    generalize dependent (default 0 (backoffLevels cm !! e)). intros d Hd.
    generalize dependent (length (backoffSequence cm)). intros L HL.
    rewrite !Nat2Z.inj_succ. lia.
Qed.

(** C1: on a fresh controller with backoff sequence [1; 2; 4] the first
    rate-limit signal for an endpoint stores level 1 and a two-minute
    cooldown, where the claim's formula [min (k - 1) (len - 1)] gives
    level 0 (one minute) for [k = 1]. *)
Theorem first_429_skips_first_entry (durations : CooldownDurations) (now : Z) (msg : string) :
  let cm := markEndpointCooldown fsWriteOk now "friends" "429" msg
              (create fsWriteOk durations [1; 2; 4]) in
  backoffLevels cm !! "friends" = Some 1 ∧
  backoff_level <$> cooldowns cm !! "friends" = Some (Some 1) ∧
  duration_minutes <$> cooldowns cm !! "friends" = Some (Some 2) ∧
  cooldown_until <$> cooldowns cm !! "friends" = Some (now + 2 * 60 * 1000) ∧
  (1 : Z) ≠ Z.min (1 - 1) (Z.of_nat (length (backoffSequence cm)) - 1).
Proof.
  intros cm. subst cm.
  destruct (markEndpointCooldown_429 now "friends" msg (create fsWriteOk durations [1; 2; 4]))
    as (Hl & Hc & Hs).
  rewrite Hl, Hc, Hs, !lookup_insert_eq. cbn. repeat split; try reflexivity. lia.
Qed.

(** C2: for every controller, [cleanupExpiredCooldowns] deletes exactly the
    entries whose deadline has passed, saves once if and only if it deleted
    something, and leaves the table of backoff levels alone; so the next
    rate-limit signal for any endpoint escalates from the level the table
    held before the cleanup: an endpoint whose level was [prev] gets
    [min (prev + 1) (len - 1)]. *)
Theorem cleanup_preserves_backoff_levels (now : Z) (cm : t) :
  let r := cleanupExpiredCooldowns fsWriteOk now cm in
  (∀ e', cooldowns r.2 !! e' =
         match cooldowns cm !! e' with
         | Some c => if cooldown_until c <=? now then None else Some c
         | None => None
         end) ∧
  ((0 < r.1)%nat ↔ ∃ e' c, cooldowns cm !! e' = Some c ∧ cooldown_until c ≤ now) ∧
  saveCalls r.2 = (if (0 <? r.1)%nat then S (saveCalls cm) else saveCalls cm) ∧
  ((0 < r.1)%nat → fsWriteOk (saveCalls cm) = true → cooldownFile r.2 = cooldowns r.2) ∧
  ((r.1 = 0)%nat → cooldownFile r.2 = cooldownFile cm) ∧
  backoffLevels r.2 = backoffLevels cm ∧
  (∀ e now' msg,
     backoffLevels (markEndpointCooldown fsWriteOk now' e "429" msg r.2) !! e =
       Some (Z.min (default 0 (backoffLevels cm !! e) + 1)
                   (Z.of_nat (length (backoffSequence cm)) - 1))) ∧
  (∀ e prev now' msg, backoffLevels cm !! e = Some prev →
     backoffLevels (markEndpointCooldown fsWriteOk now' e "429" msg r.2) !! e =
       Some (Z.min (prev + 1) (Z.of_nat (length (backoffSequence cm)) - 1))).
Proof.
  intros r.
  split; [intros e'; apply cleanupExpiredCooldowns_lookup|].
  split; [apply cleanupExpiredCooldowns_count|].
  assert (backoffLevels r.2 = backoffLevels cm) as Hlev
    by apply cleanupExpiredCooldowns_backoffLevels.
  assert (backoffSequence r.2 = backoffSequence cm) as Hseq
    by apply cleanupExpiredCooldowns_backoffSequence.
  repeat split.
  - subst r. unfold cleanupExpiredCooldowns.
    destruct (cleanupLoop now (map_to_list (cooldowns cm)).*1 (cooldowns cm) 0) as [m n].
    simpl. destruct (0 <? n)%nat; reflexivity.
  - subst r. unfold cleanupExpiredCooldowns.
    destruct (cleanupLoop now (map_to_list (cooldowns cm)).*1 (cooldowns cm) 0) as [m n].
    simpl. intros Hpos Hok. apply Nat.ltb_lt in Hpos. rewrite Hpos. simpl. by rewrite Hok.
  - subst r. unfold cleanupExpiredCooldowns.
    destruct (cleanupLoop now (map_to_list (cooldowns cm)).*1 (cooldowns cm) 0) as [m n].
    simpl. intros ->. reflexivity.
  - exact Hlev.
  - intros e now' msg. destruct (markEndpointCooldown_429 now' e msg r.2) as (Hl & _ & _).
    rewrite Hl, lookup_insert_eq, Hlev, Hseq. reflexivity.
  - intros e prev now' msg Hprev.
    destruct (markEndpointCooldown_429 now' e msg r.2) as (Hl & _ & _).
    rewrite Hl, lookup_insert_eq, Hlev, Hseq, Hprev. reflexivity.
Qed.

(** C8: [resetBackoffOnSuccess] forgets the endpoint's backoff level, drops
    its cooldown entry (and saves) only when the entry's reason is 429,
    keeps an entry with any other reason as it is without saving, and does
    not touch other endpoints. *)
Theorem resetBackoffOnSuccess_frame (e : string) (cm : t) :
  let cm' := resetBackoffOnSuccess fsWriteOk e cm in
  backoffLevels cm' !! e = None ∧
  (∀ c, cooldowns cm !! e = Some c → reason c = "429" →
        cooldowns cm' !! e = None ∧ saveCalls cm' = S (saveCalls cm) ∧
        (fsWriteOk (saveCalls cm) = true → cooldownFile cm' = cooldowns cm')) ∧
  (∀ c, cooldowns cm !! e = Some c → reason c ≠ "429" →
        cooldowns cm' = cooldowns cm ∧ cooldownFile cm' = cooldownFile cm ∧
        saveCalls cm' = saveCalls cm) ∧
  (cooldowns cm !! e = None →
        cooldowns cm' = cooldowns cm ∧ cooldownFile cm' = cooldownFile cm) ∧
  (∀ e', e' ≠ e →
        backoffLevels cm' !! e' = backoffLevels cm !! e' ∧
        cooldowns cm' !! e' = cooldowns cm !! e').
Proof.
  intros cm'. subst cm'. unfold resetBackoffOnSuccess.
  set (cm1 := if bool_decide (is_Some (backoffLevels cm !! e))
              then set_backoffLevels (delete e (backoffLevels cm)) cm else cm).
  assert (cooldowns cm1 = cooldowns cm ∧ cooldownFile cm1 = cooldownFile cm ∧
          saveCalls cm1 = saveCalls cm ∧ backoffLevels cm1 = delete e (backoffLevels cm))
    as (Hc1 & Hf1 & Hs1 & Hl1).
  { subst cm1. case_bool_decide as Hhad; repeat split.
    symmetry. apply delete_id. by apply eq_None_not_Some. }
  rewrite Hc1.
  assert (∀ x, backoffLevels (match x with
                 | Some cooldown =>
                     if decide (reason cooldown = "429")
                     then saveCooldowns fsWriteOk (set_cooldowns (delete e (cooldowns cm)) cm1)
                     else cm1
                 | None => cm1 end) = delete e (backoffLevels cm)) as Hlev.
  { intros [c|]; [destruct (decide _)|]; simpl; exact Hl1. }
  split; [by rewrite Hlev, lookup_delete_eq|].
  split; [|split; [|split]].
  - intros c Hc Hr. rewrite Hc. rewrite decide_True by done. simpl.
    rewrite lookup_delete_eq, Hs1. repeat split. intros Hok. by rewrite Hok.
  - intros c Hc Hr. rewrite Hc. rewrite decide_False by done. done.
  - intros Hc. rewrite Hc. done.
  - intros e' Hne. rewrite Hlev. rewrite lookup_delete_ne by congruence. split; [done|].
    destruct (cooldowns cm !! e) as [c|]; [destruct (decide _)|]; simpl;
      rewrite ?lookup_delete_ne by congruence; by rewrite ?Hc1.
Qed.

End Facts.

(** Scenario: sequence [1; 2; 4], a rate limit on [friends] at time 0, the
    cooldown expires and is cleaned up, a second rate limit follows. *)
Lemma cleanup_preserves_backoff_levels_witness :
  let fs := λ _ : nat, true in
  let cm := markEndpointCooldown fs 0 "friends" "429" "Too Many Requests"
              (create fs {| connection_reset := 30000; timeout := 60000;
                            dns_failure := 120000 |} [1; 2; 4]) in
  backoffLevels cm !! "friends" = Some 1 ∧
  cooldowns (cleanupExpiredCooldowns fs 121000 cm).2 !! "friends" = None ∧
  backoffLevels
    (markEndpointCooldown fs 130000 "friends" "429" "Too Many Requests"
       (cleanupExpiredCooldowns fs 121000 cm).2) !! "friends" = Some 2.
Proof.
  intros fs cm.
  assert (backoffLevels cm !! "friends" = Some 1) as H by (vm_compute; reflexivity).
  destruct (cleanup_preserves_backoff_levels fs 121000 cm)
    as (Hcool & _ & _ & _ & _ & _ & _ & Hnext).
  split; [exact H|]. split; [|exact (Hnext "friends" 1 130000 "Too Many Requests" H)].
  rewrite Hcool. vm_compute. reflexivity.
Defined.

End CooldownFacts.

(** * Properties of the queue client *)

Module QueueClientFacts.
Import RedisQueueClient.

Section Facts.

Variable JSON_parse : string → Outcome QueueError JSValue.
Variable transport : Request → Exchange.

Local Abbreviation makeRequest := (makeRequest JSON_parse transport).

(** A request resolves exactly on status 200 with a body that parses and has
    a truthy [success]; it then resolves with the parsed body. *)
Lemma makeRequest_resolves method endpoint data parsed :
  makeRequest method endpoint data = Returned parsed ↔
  ∃ responseData success,
    transport {| method := method; endpoint := endpoint; data := data |}
      = HttpResponse 200 responseData ∧
    JSON_parse responseData = Returned parsed ∧
    getProp parsed "success" = Returned success ∧
    truthy success = true.
Proof.
  unfold RedisQueueClient.makeRequest.
  destruct (transport _) as [statusCode responseData|message|]; cycle 1.
  - split; [discriminate | intros (? & ? & ? & _); discriminate].
  - split; [discriminate | intros (? & ? & ? & _); discriminate].
  - destruct (JSON_parse responseData) as [body|err] eqn:Hparse; simpl.
    + destruct (statusCode =? 200) eqn:Hstatus.
      * apply Z.eqb_eq in Hstatus as ->.
        destruct (getProp body "success") as [s|err] eqn:Hs; simpl.
        -- destruct (truthy s) eqn:Ht; simpl.
           ++ split.
              ** intros [= <-]. exists responseData, s. by rewrite Hparse.
              ** intros (r & s' & [= <-] & Hp & Hs' & _). congruence.
           ++ split.
              ** destruct (getProp body "error") as [er|[]]; simpl; discriminate.
              ** intros (r & s' & [= <-] & Hp & Hs' & Ht').
                 rewrite Hparse in Hp. injection Hp as <-. congruence.
        -- split.
           ++ destruct err; discriminate.
           ++ intros (r & s' & [= <-] & Hp & Hs' & _).
              rewrite Hparse in Hp. injection Hp as <-. congruence.
      * split.
        -- simpl. destruct (getProp body "error") as [er|[]]; simpl; discriminate.
        -- intros (r & s' & [= Hst _] & _). subst statusCode. discriminate.
    + split.
      * destruct err; discriminate.
      * intros (r & s' & [= _ <-] & Hp & _). congruence.
Qed.

(** A value that has one property readable has them all readable. *)
Lemma getProp_total v key key' x :
  getProp v key = Returned x → ∃ y, getProp v key' = Returned y.
Proof. destruct v; cbn; (discriminate || eauto). Qed.

Lemma getProp_length_nullish items :
  getProp items "length" =
  match items with
  | JUndefined | JNull => Thrown TypeError
  | _ => getProp items "length"
  end.
Proof. by destruct items. Qed.

(** C9: a request counts as a success exactly when the status is 200 and
    the parsed body has a truthy [success], and every method goes by that:
    on a success [claimItems] yields the body's [items] (the empty array
    when that is missing or null), [completeItems] and [releaseItems] yield
    [true], [getStats] yields the body's [stats] and [releaseInstance] its
    [released_count] or [0]; whatever else happens on the wire, no method
    throws: [claimItems] yields the empty array, [completeItems] and
    [releaseItems] yield [false], [getStats] yields [null] and
    [releaseInstance] yields [0]. *)
Theorem methods_absorb_errors (self : t) (count : Z) (itemIds : list string) :
  let claim := makeRequest "POST" ("/queue/" +:+ queueName self +:+ "/claim")
                 (Some (JObject [("instance_id", JString (instanceId self));
                                 ("count", JNumber count)])) in
  let complete := makeRequest "POST" ("/queue/" +:+ queueName self +:+ "/complete")
                    (Some (JObject [("instance_id", JString (instanceId self));
                                    ("items", JArray (JString <$> itemIds))])) in
  let release := makeRequest "POST" ("/queue/" +:+ queueName self +:+ "/release")
                   (Some (JObject [("instance_id", JString (instanceId self));
                                   ("items", JArray (JString <$> itemIds))])) in
  let stats := makeRequest "GET" ("/queue/" +:+ queueName self +:+ "/stats") None in
  let releaseAll := makeRequest "POST" ("/queue/" +:+ queueName self +:+ "/release-instance")
                      (Some (JObject [("instance_id", JString (instanceId self))])) in
  (∀ method endpoint data parsed,
     makeRequest method endpoint data = Returned parsed ↔
     ∃ responseData success,
       transport {| method := method; endpoint := endpoint; data := data |}
         = HttpResponse 200 responseData ∧
       JSON_parse responseData = Returned parsed ∧
       getProp parsed "success" = Returned success ∧
       truthy success = true) ∧
  (∀ response, claim = Returned response →
     ∃ items, getProp response "items" = Returned items ∧
       claimItems JSON_parse transport self count =
         Returned (match items with
                   | JUndefined | JNull => JArray []
                   | _ => items
                   end)) ∧
  (∀ err, claim = Thrown err →
     claimItems JSON_parse transport self count = Returned (JArray [])) ∧
  completeItems JSON_parse transport self itemIds =
    Returned (match complete with
              | Returned _ => true
              | Thrown _ => false
              end) ∧
  releaseItems JSON_parse transport self itemIds =
    Returned (match release with
              | Returned _ => true
              | Thrown _ => false
              end) ∧
  (∀ response, stats = Returned response →
     ∃ value, getProp response "stats" = Returned value ∧
       getStats JSON_parse transport self = Returned value) ∧
  (∀ err, stats = Thrown err → getStats JSON_parse transport self = Returned JNull) ∧
  (∀ response, releaseAll = Returned response →
     ∃ released_count, getProp response "released_count" = Returned released_count ∧
       releaseInstance JSON_parse transport self =
         Returned (if truthy released_count then released_count else JNumber 0)) ∧
  (∀ err, releaseAll = Thrown err →
     releaseInstance JSON_parse transport self = Returned (JNumber 0)).
Proof.
  intros claim complete release stats releaseAll.
  subst claim complete release stats releaseAll.
  assert (∀ method endpoint data response key,
            makeRequest method endpoint data = Returned response →
            ∃ y, getProp response key = Returned y) as Hreadable.
  { intros method endpoint data response key Hresolved.
    apply makeRequest_resolves in Hresolved as (_ & success & _ & _ & Hsuccess & _).
    by eapply getProp_total. }
  split; [intros; apply makeRequest_resolves|].
  unfold claimItems, completeItems, releaseItems, getStats, releaseInstance.
  split; [|split; [|split; [|split; [|split; [|split; [|split]]]]]].
  - intros response Hresolved.
    destruct (Hreadable _ _ _ _ "items" Hresolved) as [items Hitems].
    exists items. split; [done|]. rewrite Hresolved. cbn. rewrite Hitems. cbn.
    rewrite getProp_length_nullish. by destruct items.
  - by intros err ->.
  - by destruct (makeRequest _ _ _).
  - by destruct (makeRequest _ _ _).
  - intros response Hresolved.
    destruct (Hreadable _ _ _ _ "stats" Hresolved) as [value Hvalue].
    exists value. split; [done|]. rewrite Hresolved. cbn. by rewrite Hvalue.
  - by intros err ->.
  - intros response Hresolved.
    destruct (Hreadable _ _ _ _ "released_count" Hresolved) as [c Hc].
    exists c. split; [done|]. rewrite Hresolved. cbn. by rewrite Hc.
  - by intros err ->.
Qed.

End Facts.

(** An accepted response with one item and a count of three. *)
Lemma methods_absorb_errors_witness :
  let body := JObject [("success", JBool true);
                       ("items", JArray [JObject [("id", JString "B")]]);
                       ("released_count", JNumber 3)] in
  let parse := λ _ : string, Returned (E := QueueError) body in
  let wire := λ _ : Request, HttpResponse 200 "body" in
  let self := {| queueName := "validator"; instanceId := "instance-1" |} in
  claimItems parse wire self 5 = Returned (JArray [JObject [("id", JString "B")]]) ∧
  releaseInstance parse wire self = Returned (JNumber 3).
Proof.
  intros body parse wire self.
  destruct (methods_absorb_errors parse wire self 5 [])
    as (_ & Hclaim & _ & _ & _ & _ & _ & Hrelease & _).
  destruct (Hclaim body eq_refl) as (items & Hitems & ->).
  destruct (Hrelease body eq_refl) as (released_count & Hcount & ->).
  injection Hitems as <-. injection Hcount as <-. done.
Defined.

End QueueClientFacts.

(** * Properties of the check store *)

Module StoreFacts.
Import QueueManager StoreSpec.

Ltac unfold_store :=
  unfold addProfileToQueue, updateProfileCheck, removeProfileFromQueue,
    convertDeferredChecksToToCheck, try_catch, bind, readQueueProfiles,
    writeQueueProfiles, callService, ret, throw, get, getQueuedProfilesSync in *.

Lemma someCheck_spec wanted p :
  someCheck wanted p = true ↔ ∃ name, checks p !! name = Some wanted.
Proof.
  unfold someCheck. rewrite existsb_exists. split.
  - intros (status & Hin & Heq). apply bool_decide_eq_true in Heq as ->.
    apply list_elem_of_In, list_elem_of_fmap in Hin as ([name s] & -> & Hin).
    exists name. by apply elem_of_map_to_list.
  - intros (name & Hname). exists wanted. split; [|by apply bool_decide_eq_true].
    apply list_elem_of_In, list_elem_of_fmap. exists (name, wanted).
    split; [done|]. by apply elem_of_map_to_list.
Qed.

Lemma someCheck_false wanted p :
  someCheck wanted p = false ↔ ∀ name, checks p !! name ≠ Some wanted.
Proof.
  rewrite <- not_true_iff_false, someCheck_spec. split.
  - intros Hno name Hname. apply Hno. eauto.
  - intros Hall (name & Hname). by apply (Hall name).
Qed.

Lemma initialChecks_exact steamId username ts :
  checksExact {| steam_id := steamId; username := username; timestamp := ts;
                 checks := initialChecks |}.
Proof.
  split.
  - cbn [checks]. unfold initialChecks. by rewrite dom_list_to_map_L.
  - intros name status Hl. cbn [checks] in Hl. apply elem_of_list_to_map_2 in Hl.
    apply list_elem_of_fmap in Hl as (n & [= -> ->] & _).
    unfold validStatuses. apply elem_of_cons. by left.
Qed.

Lemma checksExact_complete p : checksExact p → checksComplete p.
Proof. intros [Hdom Hval]. split; [by rewrite Hdom | done]. Qed.

Lemma statusesValid_setCheck checkName status p :
  status ∈ validStatuses → statusesValid p → statusesValid (setCheck checkName status p).
Proof.
  intros Hst Hval name s. unfold setCheck. case_decide; [apply Hval|].
  simpl. rewrite lookup_insert. case_decide.
  - by intros [= <-].
  - apply Hval.
Qed.

Lemma checksComplete_setCheck checkName status p :
  status ∈ validStatuses → checksComplete p → checksComplete (setCheck checkName status p).
Proof.
  intros Hst [Hdom Hval]. split; [|by apply statusesValid_setCheck].
  unfold setCheck. case_decide; [done|]. simpl. rewrite dom_insert_L. set_solver.
Qed.

Lemma checksExact_setCheck checkName status p :
  checkName ∈ CHECK_NAMES → status ∈ validStatuses →
  checksExact p → checksExact (setCheck checkName status p).
Proof.
  intros Hname Hst [Hdom Hval]. split; [|by apply statusesValid_setCheck].
  unfold setCheck. case_decide; [done|]. simpl. rewrite dom_insert_L, Hdom.
  assert (checkName ∈ checkNameSet) by (by apply elem_of_list_to_set).
  set_solver.
Qed.

(** The assignment writes the key, except for [__proto__] on a mapping
    without that key, where it is ignored; it touches nothing else. *)
Lemma setCheck_written checkName status p :
  checkName ≠ "__proto__" ∨ is_Some (checks p !! "__proto__") →
  setCheck checkName status p =
    {| steam_id := steam_id p; username := username p; timestamp := timestamp p;
       checks := <[checkName := status]> (checks p) |}.
Proof.
  intros Hown. unfold setCheck. case_decide as Hignored; [|done].
  destruct Hignored as [-> Hnone], Hown as [?|[? Hsome]]; congruence.
Qed.

Lemma setCheck_ignored status p :
  checks p !! "__proto__" = None → setCheck "__proto__" status p = p.
Proof. intros Hnone. unfold setCheck. by rewrite decide_True. Qed.

Lemma setCheck_frame checkName status p :
  steam_id (setCheck checkName status p) = steam_id p ∧
  username (setCheck checkName status p) = username p ∧
  timestamp (setCheck checkName status p) = timestamp p ∧
  ∀ name, name ≠ checkName →
    checks (setCheck checkName status p) !! name = checks p !! name.
Proof.
  unfold setCheck. case_decide; [done|]. repeat split.
  intros name Hne. cbn. by rewrite lookup_insert_ne.
Qed.

Lemma alter_fixed {A} (f : A → A) (l : list A) i x :
  l !! i = Some x → f x = x → alter f i l = l.
Proof.
  intros Hi Hx. apply list_eq. intros j. rewrite list_lookup_alter.
  case_decide as Hj; [|done]. subst j. rewrite Hi. cbn. by rewrite Hx.
Qed.

Lemma statusesValid_convert p : statusesValid p → statusesValid (convertProfile p).1.
Proof.
  intros Hval name s. simpl. rewrite lookup_fmap.
  destruct (checks p !! name) as [s0|] eqn:Hs0; [|done]. simpl. intros [= <-].
  case_decide; [|by eapply Hval].
  unfold validStatuses. apply elem_of_cons. by left.
Qed.

Lemma checksComplete_convert p : checksComplete p → checksComplete (convertProfile p).1.
Proof.
  intros [Hdom Hval]. split; [|by apply statusesValid_convert].
  simpl. by rewrite dom_fmap_L.
Qed.

Lemma checksExact_convert p : checksExact p → checksExact (convertProfile p).1.
Proof.
  intros [Hdom Hval]. split; [|by apply statusesValid_convert].
  simpl. by rewrite dom_fmap_L.
Qed.

(** A property of profiles that holds of a new profile and survives a check
    update and the deferred sweep survives every store operation. *)
Lemma run_preserves (P : Profile → Prop) env op w :
  (∀ steamId username ts,
     P {| steam_id := steamId; username := username; timestamp := ts;
          checks := initialChecks |}) →
  (∀ p, P p → P (convertProfile p).1) →
  (∀ steamId checkName status, op = UpdateCheck steamId checkName status →
     status ∈ validStatuses → ∀ p, P p → P (setCheck checkName status p)) →
  Forall P (getQueuedProfilesSync w) →
  Forall P (getQueuedProfilesSync (run env op w)).
Proof.
  intros Hnew Hconv Hupd Hall. destruct op as [steamId u api|steamId checkName status|steamId|];
    unfold run; unfold_store.
  - destruct (findProfile steamId (default [] (queueFile w))) as [[i existing]|]; [done|].
    destruct (match api with Some _ => _ | None => _ end); [done|].
    destruct (fsWriteOk env (fsWrites w)); simpl; [|done].
    apply Forall_app. split; [done|]. apply Forall_singleton, Hnew.
  - destruct (findProfile steamId (default [] (queueFile w))) as [[i existing]|]; [|done].
    case_bool_decide as Hst; simpl; [|done].
    destruct (fsWriteOk env (fsWrites w)); simpl; [|done].
    apply Forall_alter; [done|]. intros p _. by eapply Hupd.
  - destruct (_ <? _)%nat; [|done].
    destruct (fsWriteOk env (fsWrites w)); simpl; [|done].
    assert (Forall P (filter (λ p, steam_id p ≠ steamId) (default [] (queueFile w)))) as Hf.
    { apply Forall_forall. intros p Hp. apply list_elem_of_filter in Hp as [_ Hp].
      by eapply Forall_forall in Hall. }
    by destruct (redisQueueClient env).
  - destruct (0 <? _); [|done].
    destruct (fsWriteOk env (fsWrites w)); simpl; [|done].
    rewrite <- list_fmap_compose. apply Forall_fmap.
    eapply Forall_impl; [exact Hall|]. intros p Hp. by apply Hconv.
Qed.

(** C4 as stated fails: the check name ["bogus"] is in no profile's
    [checks], yet the update returns [true] and rewrites the store. *)
Lemma updateProfileCheck_unknown_check_name :
  Forall (λ p, checks p !! "bogus" = None) (getQueuedProfilesSync worldWithAlice) ∧
  (updateProfileCheck plainEnv "A" "bogus" "passed" worldWithAlice).1 = Returned true ∧
  queueFile (updateProfileCheck plainEnv "A" "bogus" "passed" worldWithAlice).2
    ≠ queueFile worldWithAlice.
Proof.
  split; [|split].
  - apply (bool_decide_unpack _). vm_compute. exact I.
  - vm_compute. reflexivity.
  - intros Heq.
    assert (existsb (λ p, bool_decide (is_Some (checks p !! "bogus")))
              (default [] (queueFile
                 (updateProfileCheck plainEnv "A" "bogus" "passed" worldWithAlice).2)) = true)
      as Hb by (vm_compute; reflexivity).
    rewrite Heq in Hb. vm_compute in Hb. discriminate.
Qed.

(** The name [__proto__] is the one exception: the update returns [true]
    and the store keeps its content. *)
Lemma updateProfileCheck_ignores_proto :
  (updateProfileCheck plainEnv "A" "__proto__" "passed" worldWithAlice).1 = Returned true ∧
  queueFile (updateProfileCheck plainEnv "A" "__proto__" "passed" worldWithAlice).2
    = queueFile worldWithAlice.
Proof. split; vm_compute; reflexivity. Qed.

(** C4, amended: [updateProfileCheck] never throws; it returns [true]
    exactly when a profile with the id exists, the status is one of the four
    and the write succeeds, and then the file holds the profiles with the
    assignment [checks[checkName] = status] made on the first such profile:
    the key holds the status, whether or not it existed, for every name but
    [__proto__] on a mapping without that key, where the assignment is
    ignored and the file keeps its content.  When it returns [false] the
    file is unchanged. *)
Theorem updateProfileCheck_result (env : Env) (steamId checkName status : string) (w : World) :
  let profiles := getQueuedProfilesSync w in
  let r := updateProfileCheck env steamId checkName status w in
  (r.1 = Returned true ∨ r.1 = Returned false) ∧
  (r.1 = Returned true ↔
     is_Some (findProfile steamId profiles) ∧ status ∈ validStatuses ∧
     fsWriteOk env (fsWrites w) = true) ∧
  (r.1 = Returned false → queueFile r.2 = queueFile w) ∧
  (r.1 = Returned true →
     ∃ i p, findProfile steamId profiles = Some (i, p) ∧
            queueFile r.2 = Some (alter (setCheck checkName status) i profiles) ∧
            alter (setCheck checkName status) i profiles !! i
              = Some (setCheck checkName status p) ∧
            (checkName ≠ "__proto__" ∨ is_Some (checks p !! "__proto__") →
               checks (setCheck checkName status p) = <[checkName := status]> (checks p) ∧
               checks (setCheck checkName status p) !! checkName = Some status) ∧
            (checkName = "__proto__" → checks p !! "__proto__" = None →
               setCheck checkName status p = p ∧ queueFile r.2 = queueFile w)).
Proof.
  intros profiles r. subst profiles r. unfold_store.
  destruct (findProfile steamId (default [] (queueFile w))) as [[i p]|] eqn:Hfind; simpl.
  - case_bool_decide as Hst; simpl.
    + destruct (fsWriteOk env (fsWrites w)) eqn:Hok; simpl.
      * split; [by left|]. split; [split; [intros _; split; [eauto|by split] | done]|].
        split; [discriminate|]. intros _. exists i, p. split; [done|]. split; [done|].
        apply list_find_Some in Hfind as (Hi & _ & _).
        split; [rewrite list_lookup_alter, Hi; by rewrite decide_True|]. split.
        -- intros Hown. rewrite (setCheck_written _ _ _ Hown). cbn.
           split; [done|apply lookup_insert_eq].
        -- intros -> Hnone. split; [by apply setCheck_ignored|].
           rewrite (alter_fixed _ _ _ _ Hi (setCheck_ignored status p Hnone)).
           destruct (queueFile w); [done|]. cbn in Hi. by rewrite lookup_nil in Hi.
      * split; [by right|]. split; [|split; [done|discriminate]].
        split; [discriminate|]. intros (_ & _ & ?). discriminate.
    + split; [by right|]. split; [|split; [done|discriminate]].
      split; [discriminate|]. intros (_ & ? & _). done.
  - split; [by right|]. split; [|split; [done|discriminate]].
    split; [discriminate|]. intros ([? ?] & _). discriminate.
Qed.

(** C5 as stated fails: after an update with a check name outside the seven
    the profile has an eighth key. *)
Lemma updateCheck_breaks_exact_key_set :
  reachableAny plainEnv worldWithAlice ∧
  Forall checksExact (getQueuedProfilesSync worldWithAlice) ∧
  ¬ Forall checksExact
      (getQueuedProfilesSync (run plainEnv (UpdateCheck "A" "bogus" "passed") worldWithAlice)).
Proof.
  split; [|split].
  - apply reachableAny_step. by apply reachableAny_empty.
  - apply run_preserves; [apply initialChecks_exact|apply checksExact_convert|done|].
    constructor.
  - intros Hall.
    assert (existsb (λ p, bool_decide (is_Some (checks p !! "bogus")))
              (getQueuedProfilesSync
                 (run plainEnv (UpdateCheck "A" "bogus" "passed") worldWithAlice)) = true)
      as Hb by (vm_compute; reflexivity).
    apply existsb_exists in Hb as (p & Hin & Hp). apply bool_decide_eq_true in Hp.
    apply list_elem_of_In in Hin. eapply Forall_forall in Hall as [Hdom _]; [|exact Hin].
    apply elem_of_dom in Hp. rewrite Hdom in Hp.
    apply elem_of_list_to_set, list_elem_of_In in Hp. simpl in Hp.
    repeat (destruct Hp as [Hp|Hp]; [discriminate|]). exact Hp.
Qed.

(** C5, amended: every store operation keeps all seven checks present with
    a valid status; it adds no other key provided [updateProfileCheck] is
    given one of the seven names; so every state built from the empty store
    has complete checks, and exactly the seven when the updates were so
    named. *)
Theorem store_invariant (env : Env) :
  (∀ op w, Forall checksComplete (getQueuedProfilesSync w) →
           Forall checksComplete (getQueuedProfilesSync (run env op w))) ∧
  (∀ op w, opWellNamed op →
           Forall checksExact (getQueuedProfilesSync w) →
           Forall checksExact (getQueuedProfilesSync (run env op w))) ∧
  (∀ w, reachableAny env w → Forall checksComplete (getQueuedProfilesSync w)) ∧
  (∀ w, reachable env w → Forall checksExact (getQueuedProfilesSync w)).
Proof.
  assert (∀ op w, Forall checksComplete (getQueuedProfilesSync w) →
                  Forall checksComplete (getQueuedProfilesSync (run env op w))) as Hc.
  { intros op w. apply run_preserves.
    - intros. apply checksExact_complete, initialChecks_exact.
    - apply checksComplete_convert.
    - intros ? ? ? _ ? ?. by apply checksComplete_setCheck. }
  assert (∀ op w, opWellNamed op →
                  Forall checksExact (getQueuedProfilesSync w) →
                  Forall checksExact (getQueuedProfilesSync (run env op w))) as He.
  { intros op w Hop. apply run_preserves.
    - apply initialChecks_exact.
    - apply checksExact_convert.
    - intros ? ? ? -> ? ?. by apply checksExact_setCheck. }
  split; [exact Hc|]. split; [exact He|]. split.
  - induction 1 as [w Hw|w op _ IH]; [rewrite Hw; constructor | by apply Hc].
  - induction 1 as [w Hw|w op _ IH Hop]; [rewrite Hw; constructor | by apply He].
Qed.

(** The state after adding a profile, deferring one of its checks and
    sweeping is reachable, so it has exactly the seven checks. *)
Lemma store_invariant_witness :
  Forall checksExact
    (getQueuedProfilesSync
       (run plainEnv ConvertDeferred
          (run plainEnv (UpdateCheck "A" "friends" "deferred") worldWithAlice))).
Proof.
  apply (store_invariant plainEnv).
  apply reachable_step; [|exact I].
  apply reachable_step; [|by apply (bool_decide_unpack _)].
  apply reachable_step; [|exact I].
  by apply reachable_empty.
Defined.

(** *** The pull loop *)

Lemma setCalls_id w : setCalls (serviceCalls w) w = w.
Proof. by destruct w. Qed.

(** [addProfileToQueue] neither reads nor writes the list of service
    calls. *)
Lemma addProfileToQueue_setCalls env steamId u api calls w :
  addProfileToQueue env steamId u api (setCalls calls w) =
  ((addProfileToQueue env steamId u api w).1,
   setCalls calls (addProfileToQueue env steamId u api w).2).
Proof.
  unfold_store. unfold setCalls. cbn [queueFile fsWrites serviceCalls].
  destruct (findProfile steamId (default [] (queueFile w))) as [[i existing]|]; [done|].
  destruct (match api with Some _ => _ | None => _ end); [done|].
  simpl. by destruct (fsWriteOk env (fsWrites w)).
Qed.

Lemma addAttempts_setCalls env api items : ∀ calls w,
  addAttempts env api items (setCalls calls w) = addAttempts env api items w.
Proof.
  induction items as [|it items IH]; intros calls w; [done|].
  cbn [addAttempts]. rewrite addProfileToQueue_setCalls. cbn [fst snd]. by rewrite IH.
Qed.

Lemma afterAttempts_setCalls env api items : ∀ calls w,
  afterAttempts env api items (setCalls calls w) =
  setCalls calls (afterAttempts env api items w).
Proof.
  induction items as [|it items IH]; intros calls w; [done|].
  cbn [afterAttempts]. rewrite addProfileToQueue_setCalls. cbn [snd]. by rewrite IH.
Qed.

Lemma addProfileToQueue_calls env steamId u api w :
  serviceCalls (addProfileToQueue env steamId u api w).2 = serviceCalls w.
Proof.
  unfold_store.
  destruct (findProfile steamId (default [] (queueFile w))) as [[i existing]|]; [done|].
  destruct (match api with Some _ => _ | None => _ end); [done|].
  by destruct (fsWriteOk env (fsWrites w)).
Qed.

Lemma afterAttempts_calls env api items : ∀ w,
  serviceCalls (afterAttempts env api items w) = serviceCalls w.
Proof.
  induction items as [|it items IH]; intros w; [done|].
  cbn [afterAttempts]. by rewrite IH, addProfileToQueue_calls.
Qed.

(** Without a probe an add is never suppressed; it returns the stored
    profile when the id is present, and it throws only when the id is new
    and the write fails. *)
Lemma addProfileToQueue_no_probe env steamId u w :
  let r := addProfileToQueue env steamId u None w in
  r.1 ≠ Returned None ∧
  (∀ i existing, findProfile steamId (getQueuedProfilesSync w) = Some (i, existing) →
     r = (Returned (Some existing), w)) ∧
  (∀ msg, r.1 = Thrown msg →
     findProfile steamId (getQueuedProfilesSync w) = None ∧
     fsWriteOk env (fsWrites w) = false ∧ queueFile r.2 = queueFile w).
Proof.
  intros r. subst r. unfold_store.
  destruct (findProfile steamId (default [] (queueFile w))) as [[i existing]|] eqn:Hfind.
  - split; [done|]. split; [by intros ? ? [= <- <-] | done].
  - destruct (fsWriteOk env (fsWrites w)) eqn:Hok; simpl.
    + split; [done|]. split; done.
    + split; [done|]. split; done.
Qed.

Lemma pullItem_spec env it n w :
  let r := addProfileToQueue env (Item.id it) (Item.username it) None w in
  pullItem env it n w =
  match r.1 with
  | Returned (Some _) => (Returned (n + 1), r.2)
  | _ => (Returned n, setCalls (serviceCalls w ++ [ReleaseItems [Item.id it]]) r.2)
  end.
Proof.
  intros r. unfold pullItem, try_catch, bind, callService, ret.
  pose proof (addProfileToQueue_calls env (Item.id it) (Item.username it) None w) as Hcalls.
  fold r in Hcalls |- *. destruct r as [[[p|]|msg] w']; simpl in *; by rewrite ?Hcalls.
Qed.

Lemma pullLoop_spec env items : ∀ n w,
  pullLoop env items n w =
  (Returned (n + addedCount (addAttempts env None items w)),
   setCalls (serviceCalls w ++ releaseCalls (addAttempts env None items w))
            (afterAttempts env None items w)).
Proof.
  induction items as [|it items IH]; intros n w.
  - cbn. unfold ret, addedCount, releaseCalls. cbn.
    by rewrite Z.add_0_r, app_nil_r, setCalls_id.
  - cbn [pullLoop addAttempts afterAttempts]. unfold bind at 1.
    rewrite pullItem_spec.
    pose proof (addProfileToQueue_calls env (Item.id it) (Item.username it) None w) as Hcalls.
    destruct (addProfileToQueue env (Item.id it) (Item.username it) None w)
      as [[[p|]|msg] w'] eqn:Hadd; cbn [fst snd] in *.
    + rewrite IH, Hcalls. unfold addedCount, releaseCalls.
      rewrite (filter_cons_True (λ a, notAdded a = false)) by done.
      rewrite (filter_cons_False (λ a, notAdded a = true)) by done.
      cbn [length]. f_equal. f_equal. lia.
    + rewrite IH, addAttempts_setCalls, afterAttempts_setCalls. unfold addedCount, releaseCalls.
      rewrite (filter_cons_False (λ a, notAdded a = false)) by done.
      rewrite (filter_cons_True (λ a, notAdded a = true)) by done.
      cbn. by rewrite <- app_assoc.
    + rewrite IH, addAttempts_setCalls, afterAttempts_setCalls. unfold addedCount, releaseCalls.
      rewrite (filter_cons_False (λ a, notAdded a = false)) by done.
      rewrite (filter_cons_True (λ a, notAdded a = true)) by done.
      cbn. by rewrite <- app_assoc.
Qed.

Lemma addAttempts_items env api items : ∀ w, item <$> addAttempts env api items w = items.
Proof. induction items as [|it items IH]; intros w; [done|]. cbn. by rewrite IH. Qed.

Lemma addAttempts_no_probe env items : ∀ w,
  Forall (λ a, outcome a ≠ Returned None ∧
               (present a = true → notAdded a = false) ∧
               (notAdded a = true → present a = false ∧ ∃ msg, outcome a = Thrown msg))
         (addAttempts env None items w).
Proof.
  induction items as [|it items IH]; intros w; [constructor|].
  cbn [addAttempts]. constructor; [|apply IH].
  destruct (addProfileToQueue_no_probe env (Item.id it) (Item.username it) w)
    as (Hnone & Hpresent & Hthrown).
  unfold notAdded. cbn [outcome present]. split; [done|]. split.
  - intros Hp. apply bool_decide_eq_true in Hp as [[i existing] Hfind].
    by rewrite (Hpresent i existing Hfind).
  - destruct (addProfileToQueue env (Item.id it) (Item.username it) None w)
      as [[[p|]|msg] w'] eqn:Hadd; cbn [fst] in *; [done|done|].
    intros _. destruct (Hthrown msg eq_refl) as (Hfind & _). split; [|by eexists].
    apply bool_decide_eq_false. rewrite Hfind. by intros [? ?].
Qed.

(** C3: the pull loop does not release what the claim says it releases.
    The adds are made without a probe, and an add of an id that is already
    stored hands back the stored profile, so the branch that releases an
    item whose add gave no profile is never taken.  A batch that names the
    id [A] twice, pulled into an empty store: both items are counted, one
    profile is stored and nothing is released, where the claim releases the
    second [A].  Likewise an id the probe knows is added, and an id stored
    before the pull is counted, where the claim releases them. *)
Theorem pull_releases_nothing_the_probe_or_store_knows :
  (pullFromRedisQueue (envClaiming [itemA; itemA]) 2 emptyWorld).1 = Returned 2 ∧
  steam_id <$> getQueuedProfilesSync
                 (pullFromRedisQueue (envClaiming [itemA; itemA]) 2 emptyWorld).2 = ["A"] ∧
  releasedIds (serviceCalls (pullFromRedisQueue (envClaiming [itemA; itemA]) 2 emptyWorld).2)
    = [] ∧
  releasedWithProbe (envClaiming [itemA; itemA]) probeKnowsNone [itemA; itemA] emptyWorld
    = ["A"] ∧
  releasedIds (serviceCalls (pullFromRedisQueue (envClaiming [itemB]) 1 emptyWorld).2) = [] ∧
  releasedWithProbe (envClaiming [itemB]) probeKnowsAll [itemB] emptyWorld = ["B"] ∧
  releasedIds (serviceCalls (pullFromRedisQueue (envClaiming [itemA]) 1 worldWithAlice).2) = [] ∧
  releasedWithProbe (envClaiming [itemA]) probeKnowsAll [itemA] worldWithAlice = ["A"].
Proof. repeat split; vm_compute; reflexivity. Qed.

(** What a pull does, in one piece. *)
Lemma pullFromRedisQueue_explicit env count w :
  pullFromRedisQueue env count w =
  match redisQueueClient env with
  | None => (Returned 0, w)
  | Some client =>
      if isHealthyToClaimWork env w then
        let attempts := addAttempts env None (claimItems client count) w in
        (Returned (addedCount attempts),
         setCalls (serviceCalls w ++ ClaimItems count :: releaseCalls attempts)
                  (afterAttempts env None (claimItems client count) w))
      else (Returned 0, w)
  end.
Proof.
  unfold pullFromRedisQueue. destruct (redisQueueClient env) as [client|]; [|done].
  unfold bind at 1, get. destruct (isHealthyToClaimWork env w); cbn [negb]; [|done].
  unfold try_catch, bind, callService.
  destruct (length (claimItems client count) =? 0)%nat eqn:Hlen.
  - apply Nat.eqb_eq, nil_length_inv in Hlen. rewrite Hlen. done.
  - rewrite pullLoop_spec. cbn [serviceCalls].
    change (addAttempts env None ?items {| queueFile := queueFile w; fsWrites := fsWrites w;
                                           serviceCalls := ?c |})
      with (addAttempts env None items (setCalls c w)).
    change (afterAttempts env None ?items {| queueFile := queueFile w; fsWrites := fsWrites w;
                                             serviceCalls := ?c |})
      with (afterAttempts env None items (setCalls c w)).
    rewrite addAttempts_setCalls, afterAttempts_setCalls, Z.add_0_l, <- app_assoc. done.
Qed.

(** What the pull loop does with any batch when the gate lets it through:
    it adds every claimed item without a probe and sends, after the claim,
    one [releaseItems([id])] for each item whose add did not yield a profile;
    no add yields null, an id already in the store yields the stored profile,
    so an item goes back only when its add threw. *)
Theorem pull_releases_failed_adds (env : Env) (client : RedisQueueClient)
    (count : Z) (w : World) :
  redisQueueClient env = Some client →
  isHealthyToClaimWork env w = true →
  let items := claimItems client count in
  let attempts := addAttempts env None items w in
  let r := pullFromRedisQueue env count w in
  item <$> attempts = items ∧
  serviceCalls r.2 = (serviceCalls w ++ ClaimItems count :: releaseCalls attempts)%list ∧
  queueFile r.2 = queueFile (afterAttempts env None items w) ∧
  r.1 = Returned (addedCount attempts) ∧
  Forall (λ a, outcome a ≠ Returned None ∧
               (present a = true → notAdded a = false) ∧
               (notAdded a = true → present a = false ∧ ∃ msg, outcome a = Thrown msg))
         attempts.
Proof.
  intros Hclient Hhealthy items attempts r. subst r.
  rewrite pullFromRedisQueue_explicit, Hclient, Hhealthy. cbn [fst snd].
  split; [apply addAttempts_items|]. split; [done|]. split; [done|].
  split; [done|apply addAttempts_no_probe].
Qed.

Lemma pull_releases_failed_adds_witness :
  serviceCalls (pullFromRedisQueue envFirstWriteFails 2 emptyWorld).2
    = [ClaimItems 2; ReleaseItems ["B"]] ∧
  (pullFromRedisQueue envFirstWriteFails 2 emptyWorld).1 = Returned 1.
Proof.
  destruct (pull_releases_failed_adds envFirstWriteFails
              {| claimItems := λ _, [itemB; itemA] |} 2 emptyWorld)
    as (_ & Hcalls & _ & Hcount & _); [reflexivity | vm_compute; reflexivity |].
  split; [rewrite Hcalls | rewrite Hcount]; vm_compute; reflexivity.
Defined.

(** *** Selecting the next profile *)

Lemma firstPass_find profiles : firstPass profiles = List.find processableNow profiles.
Proof.
  induction profiles as [|p profiles IH]; [done|]. cbn. unfold processableNow.
  destruct (someCheck "to_check" p), (someCheck "deferred" p); cbn; done.
Qed.

Lemma secondPass_find profiles :
  secondPass profiles = List.find (someCheck "deferred") profiles.
Proof.
  induction profiles as [|p profiles IH]; [done|]. cbn.
  by destruct (someCheck "deferred" p).
Qed.

Lemma scan_select profiles :
  match firstPass profiles with
  | Some profile => Some profile
  | None => secondPass profiles
  end = select profiles.
Proof. unfold select. by rewrite firstPass_find, secondPass_find. Qed.

(** A profile that the first scan skips has a deferred check, so a
    non-empty store always yields a profile. *)
Lemma select_nonempty profiles : profiles ≠ [] → is_Some (select profiles).
Proof.
  destruct profiles as [|p profiles]; [done|]. intros _. unfold select. cbn.
  unfold processableNow.
  destruct (someCheck "to_check" p); cbn; [eauto|].
  destruct (someCheck "deferred" p); cbn; [|eauto].
  destruct (List.find _ profiles); eauto.
Qed.

Lemma snoc_not_nil {A} (l : list A) (x : A) : (l ++ [x])%list ≠ [].
Proof. by destruct l. Qed.

Lemma addProfileToQueue_nonempty env steamId u api w :
  let r := addProfileToQueue env steamId u api w in
  (getQueuedProfilesSync w ≠ [] → getQueuedProfilesSync r.2 ≠ []) ∧
  (∀ p, r.1 = Returned (Some p) → getQueuedProfilesSync r.2 ≠ []).
Proof.
  intros r. subst r. unfold_store.
  destruct (findProfile steamId (default [] (queueFile w))) as [[i existing]|] eqn:Hfind.
  - simpl. split; [done|]. intros _ _ Hnil. rewrite Hnil in Hfind. discriminate.
  - destruct (match api with Some _ => _ | None => _ end); [simpl; split; done|].
    simpl. destruct (fsWriteOk env (fsWrites w)); simpl.
    + split; intros; apply snoc_not_nil.
    + split; done.
Qed.

Lemma afterAttempts_nonempty env api items : ∀ w,
  getQueuedProfilesSync w ≠ [] ∨ Exists (λ a, notAdded a = false) (addAttempts env api items w) →
  getQueuedProfilesSync (afterAttempts env api items w) ≠ [].
Proof.
  induction items as [|it items IH]; intros w [Hne|Hex].
  - done.
  - inversion Hex.
  - cbn [afterAttempts]. apply IH. left.
    by apply (proj1 (addProfileToQueue_nonempty env (Item.id it) (Item.username it) api w)).
  - cbn [afterAttempts addAttempts] in *. apply IH.
    apply Exists_cons in Hex as [Hhead|Htail]; [left|by right].
    unfold notAdded in Hhead. cbn [outcome] in Hhead.
    destruct (addProfileToQueue env (Item.id it) (Item.username it) api w).1
      as [[p|]|msg] eqn:Hr; try discriminate.
    by apply (proj2 (addProfileToQueue_nonempty env (Item.id it) (Item.username it) api w) p).
Qed.

(** The pull never throws, and when it reports added profiles the store is
    not empty afterwards. *)
Lemma pullFromRedisQueue_returns env count w :
  ∃ pulled, (pullFromRedisQueue env count w).1 = Returned pulled ∧
    (0 < pulled → getQueuedProfilesSync (pullFromRedisQueue env count w).2 ≠ []).
Proof.
  rewrite pullFromRedisQueue_explicit.
  destruct (redisQueueClient env) as [client|]; [|exists 0; split; [done|lia]].
  destruct (isHealthyToClaimWork env w); [|exists 0; split; [done|lia]].
  eexists. split; [done|]. cbn [snd]. intros Hpos.
  change (getQueuedProfilesSync (setCalls ?c ?x)) with (getQueuedProfilesSync x).
  apply afterAttempts_nonempty. right.
  unfold addedCount in Hpos. apply Exists_exists.
  destruct (filter (λ a, notAdded a = false) _) as [|a l] eqn:Hf; [cbn in Hpos; lia|].
  assert (a ∈ a :: l) as Hin by (by left). rewrite <- Hf in Hin.
  apply list_elem_of_filter in Hin as [Ha Hin]. eauto.
Qed.

(** C6 as stated fails: with an all-terminal profile stored before one that
    still has work, the scan returns the all-terminal one, where the
    three-step priority of the claim picks the one with [to_check]; and on
    an empty store with a queue client the call pulls and returns a profile,
    not null. *)
Lemma scan_returns_terminal_profile_first :
  (∃ w, getNextProcessableProfile plainEnv 1 worldDoneThenTodo
          = Some (Returned (Some profileDone), w)) ∧
  selectByPriority (getQueuedProfilesSync worldDoneThenTodo) = Some profileTodo ∧
  profileDone ≠ profileTodo ∧
  getQueuedProfilesSync emptyWorld = [] ∧
  (∃ p w, getNextProcessableProfile (envClaiming [itemA]) 2 emptyWorld
            = Some (Returned (Some p), w)).
Proof.
  split; [|split; [|split; [|split]]].
  - eexists. vm_compute. reflexivity.
  - vm_compute. reflexivity.
  - intros Heq. apply (f_equal steam_id) in Heq. discriminate.
  - reflexivity.
  - eexists _, _. vm_compute. reflexivity.
Qed.

(** C6, amended: on a non-empty store the scan returns the first profile in
    insertion order that has a [to_check] check or no deferred check, and if
    there is none the first profile with a deferred check; it then never
    returns null.  On an empty store it returns null when no queue client is
    configured; with a client it pulls five items first and, if any was
    added, scans the refilled store, else returns null. *)
Theorem getNextProcessableProfile_selects (env : Env) (fuel : nat) (w : World) :
  let profiles := getQueuedProfilesSync w in
  (profiles ≠ [] →
     getNextProcessableProfile env (S fuel) w = Some (Returned (select profiles), w) ∧
     is_Some (select profiles)) ∧
  (profiles = [] → redisQueueClient env = None →
     getNextProcessableProfile env (S fuel) w = Some (Returned None, w)) ∧
  (profiles = [] → is_Some (redisQueueClient env) →
     ∃ pulled w', pullFromRedisQueue env 5 w = (Returned pulled, w') ∧
       getNextProcessableProfile env (S (S fuel)) w =
         Some (Returned (if 0 <? pulled then select (getQueuedProfilesSync w') else None), w')).
Proof.
  intros profiles. assert (∀ f w0, getQueuedProfilesSync w0 ≠ [] →
    getNextProcessableProfile env (S f) w0
      = Some (Returned (select (getQueuedProfilesSync w0)), w0)) as Hscan.
  { intros f w0 Hne. cbn [getNextProcessableProfile]. unfold getQueuedProfilesSync in *.
    rewrite (bool_decide_eq_false_2 (length (default [] (queueFile w0)) = 0%nat))
      by (by intros ?%nil_length_inv).
    cbn [andb]. rewrite <- scan_select. by destruct (firstPass _). }
  split; [|split].
  - intros Hne. split; [by apply Hscan | by apply select_nonempty].
  - intros Hnil Hclient. cbn [getNextProcessableProfile].
    subst profiles. unfold getQueuedProfilesSync in Hnil. rewrite Hnil, Hclient.
    rewrite bool_decide_eq_true_2 by done.
    rewrite (bool_decide_eq_false_2 (is_Some None)) by (by intros [? ?]). done.
  - intros Hnil Hclient.
    destruct (pullFromRedisQueue_returns env 5 w) as (pulled & Hret & Hpos).
    destruct (pullFromRedisQueue env 5 w) as [o w'] eqn:Hpull. cbn [fst snd] in *. subst o.
    exists pulled, w'. split; [done|].
    remember (S fuel) as f eqn:Hf. cbn [getNextProcessableProfile].
    subst profiles. unfold getQueuedProfilesSync in Hnil. rewrite Hnil.
    rewrite !bool_decide_eq_true_2 by done. cbn [andb]. rewrite Hpull.
    destruct (0 <? pulled) eqn:Hp; [|done].
    subst f. apply Hscan, Hpos. by apply Z.ltb_lt.
Qed.

(** On the store that has a deferred-only profile before one with work
    outstanding, the scan skips the first and returns the second. *)
Lemma getNextProcessableProfile_selects_witness :
  getNextProcessableProfile plainEnv 1 worldDeferredThenTodo
    = Some (Returned (Some profileTodo), worldDeferredThenTodo).
Proof.
  destruct (getNextProcessableProfile_selects plainEnv 0 worldDeferredThenTodo)
    as ((Hsel & _) & _); [by vm_compute|].
  rewrite Hsel. vm_compute. reflexivity.
Defined.

(** *** The health gate *)

Lemma hasDeferredChecks_false profiles :
  existsb (someCheck "deferred") profiles = false ↔ noDeferred profiles.
Proof.
  rewrite <- not_true_iff_false, existsb_exists. split.
  - intros Hno p Hp. apply someCheck_false. apply not_true_iff_false. intros Hs.
    apply Hno. exists p. split; [by apply list_elem_of_In|done].
  - intros Hall (p & Hin & Hs). apply list_elem_of_In in Hin.
    apply someCheck_spec in Hs as [name Hname]. by apply (Hall p Hin name).
Qed.

Lemma hasHealthyEndpoint_spec (st : CooldownManager.ConnectionStatus) :
  existsb (λ endpoint, 0 <? CooldownManager.availableConnections endpoint)
          (CooldownManager.endpointSummary st).*2 = true ↔
  ∃ name summary, (name, summary) ∈ CooldownManager.endpointSummary st ∧
                  0 < CooldownManager.availableConnections summary.
Proof.
  rewrite existsb_exists. split.
  - intros (s & Hin & Hs). apply list_elem_of_In, list_elem_of_fmap in Hin as ([n s'] & -> & Hin).
    exists n, s'. split; [done|]. by apply Z.ltb_lt.
  - intros (n & s & Hin & Hs). exists s. split; [|by apply Z.ltb_lt].
    apply list_elem_of_In, list_elem_of_fmap. by exists (n, s).
Qed.

(** C7: the gate opens exactly when no stored profile has a deferred check
    and, if a validator is wired, its status call returns a summary with an
    available endpoint; with the validator handing out the cooldown
    controller's status this is: some endpoint of the controller is
    available now.  A deferred check anywhere closes it, and a closed gate
    makes the pull return 0 without any call on the queue client. *)
Theorem isHealthyToClaimWork_iff (env : Env) (w : World) :
  (isHealthyToClaimWork env w = true ↔
     noDeferred (getQueuedProfilesSync w) ∧
     ∀ validator, steamValidator env = Some validator →
       ∃ st, getCooldownStatus validator = Returned st ∧
             ∃ name summary, (name, summary) ∈ CooldownManager.endpointSummary st ∧
                             0 < CooldownManager.availableConnections summary) ∧
  (∀ cooldownFsOk now cm,
     steamValidator env = Some (wiredValidator cooldownFsOk now cm) →
     (isHealthyToClaimWork env w = true ↔
        noDeferred (getQueuedProfilesSync w) ∧
        ∃ endpoint, endpoint ∈ CooldownManager.allEndpoints ∧
                    CooldownManager.isEndpointAvailable now endpoint cm = true)) ∧
  (∀ p name, p ∈ getQueuedProfilesSync w → checks p !! name = Some "deferred" →
     isHealthyToClaimWork env w = false) ∧
  (∀ count, isHealthyToClaimWork env w = false →
     pullFromRedisQueue env count w = (Returned 0, w)).
Proof.
  assert (isHealthyToClaimWork env w = true ↔
     noDeferred (getQueuedProfilesSync w) ∧
     ∀ validator, steamValidator env = Some validator →
       ∃ st, getCooldownStatus validator = Returned st ∧
             ∃ name summary, (name, summary) ∈ CooldownManager.endpointSummary st ∧
                             0 < CooldownManager.availableConnections summary) as Hiff.
  { unfold isHealthyToClaimWork.
    destruct (existsb (someCheck "deferred") (getQueuedProfilesSync w)) eqn:Hdef.
    - split; [discriminate|]. intros [Hno _]. apply hasDeferredChecks_false in Hno. congruence.
    - apply hasDeferredChecks_false in Hdef.
      destruct (steamValidator env) as [validator|]; [|by split; [split|]].
      destruct (getCooldownStatus validator) as [st|msg] eqn:Hst.
      + destruct (existsb _ _) eqn:Hex; cbn [negb].
        * apply hasHealthyEndpoint_spec in Hex. split; [|done]. intros _. split; [done|].
          intros ? [= <-]. eauto.
        * split; [discriminate|]. intros [_ Hv].
          destruct (Hv validator eq_refl) as (st' & Hst' & Hsome).
          rewrite Hst in Hst'. injection Hst' as <-.
          apply hasHealthyEndpoint_spec in Hsome. congruence.
      + split; [discriminate|]. intros [_ Hv].
        destruct (Hv validator eq_refl) as (st' & Hst' & _). congruence. }
  split; [exact Hiff|]. split; [|split].
  - intros cooldownFsOk now cm Hwired. rewrite Hiff. split.
    + intros [Hno Hv]. split; [done|].
      destruct (Hv _ Hwired) as (st & [= <-] & Hsome).
      by apply (CooldownFacts.getConnectionStatus_available cooldownFsOk now cm).
    + intros [Hno Hsome]. split; [done|].
      intros validator Hval. rewrite Hwired in Hval. injection Hval as <-.
      eexists. split; [done|].
      by apply (CooldownFacts.getConnectionStatus_available cooldownFsOk now cm).
  - intros p name Hp Hname. apply not_true_iff_false. rewrite Hiff. intros [Hno _].
    by apply (Hno p Hp name).
  - intros count Hclosed. rewrite pullFromRedisQueue_explicit, Hclosed.
    by destruct (redisQueueClient env).
Qed.

(** C10: when the validator's status call throws, the gate is closed and the
    pull returns 0 without any call on the queue client. *)
Theorem health_gate_fails_closed (env : Env) (validator : SteamValidator)
    (message : string) (count : Z) (w : World) :
  steamValidator env = Some validator →
  getCooldownStatus validator = Thrown message →
  isHealthyToClaimWork env w = false ∧
  pullFromRedisQueue env count w = (Returned 0, w) ∧
  serviceCalls (pullFromRedisQueue env count w).2 = serviceCalls w.
Proof.
  intros Hv Hthrown.
  assert (isHealthyToClaimWork env w = false) as Hclosed.
  { unfold isHealthyToClaimWork. rewrite Hv, Hthrown.
    by destruct (existsb _ _). }
  split; [done|].
  rewrite pullFromRedisQueue_explicit, Hclosed. by destruct (redisQueueClient env).
Qed.

Lemma health_gate_fails_closed_witness :
  isHealthyToClaimWork envBrokenValidator emptyWorld = false ∧
  pullFromRedisQueue envBrokenValidator 5 emptyWorld = (Returned 0, emptyWorld) ∧
  serviceCalls (pullFromRedisQueue envBrokenValidator 5 emptyWorld).2 = [].
Proof.
  apply (health_gate_fails_closed envBrokenValidator
           {| getCooldownStatus := Thrown "cooldowns is null" |} "cooldowns is null");
    reflexivity.
Defined.

End StoreFacts.

(** * Further properties of the cooldown controller *)

Module CooldownExtra.
Import CooldownManager CooldownSpec.

Lemma prefix_spec p : ∀ s, String.prefix p s = true ↔ ∃ post, s = p +:+ post.
Proof.
  induction p as [|a p IH]; intros s.
  - split; [intros _; by exists s | intros _; by destruct s].
  - destruct s as [|b s]; simpl; [split; [done | intros [post [=]]]|].
    destruct (Ascii.ascii_dec a b) as [->|Hne].
    + rewrite IH. split; intros [post Hpost]; exists post.
      * by rewrite Hpost.
      * by injection Hpost.
    + split; [done|]. intros [post [= ? _]]. done.
Qed.

(** [includes] finds the needle exactly when the haystack has it as a
    substring. *)
Lemma includes_spec needle : ∀ s,
  includes needle s = true ↔ ∃ pre post, s = pre +:+ needle +:+ post.
Proof.
  induction s as [|b s IH]; cbn [includes].
  - rewrite orb_false_r, prefix_spec. split.
    + intros [post Hpost]. by exists "", post.
    + intros (pre & post & Heq). destruct pre as [|c pre]; [by exists post | discriminate].
  - rewrite orb_true_iff, prefix_spec, IH. split.
    + intros [[post Hpost]|(pre & post & Heq)].
      * by exists "", post.
      * exists (String b pre), post. simpl. by rewrite Heq.
    + intros (pre & post & Heq). destruct pre as [|c pre].
      * left. by exists post.
      * right. injection Heq as _ Heq. by exists pre, post.
Qed.

Lemma getEndpointName_cases url :
  (includes "GetFriendList" url = true ∧ getEndpointName url = "friends") ∨
  (includes "GetFriendList" url = false ∧ includes "inventory" url = true ∧
     getEndpointName url = "inventory") ∨
  (includes "inventory" url = false ∧ getEndpointName url ≠ "inventory" ∧
     (getEndpointName url ∈ allEndpoints ∨
      (getEndpointName url = "other" ∧
       Forall (λ marker, includes marker url = false) endpointMarkers))).
Proof.
  unfold getEndpointName.
  destruct (includes "GetFriendList" url) eqn:H1; [by left|].
  destruct (includes "inventory" url) eqn:H2; [right; by left|].
  right; right. split; [done|].
  destruct (includes "GetSteamLevel" url) eqn:H3;
    [split; [done|left; set_solver]|].
  destruct (includes "GetAnimatedAvatar" url) eqn:H4;
    [split; [done|left; set_solver]|].
  destruct (includes "GetAvatarFrame" url) eqn:H5;
    [split; [done|left; set_solver]|].
  destruct (includes "GetMiniProfileBackground" url) eqn:H6;
    [split; [done|left; set_solver]|].
  destruct (includes "GetProfileBackground" url) eqn:H7;
    [split; [done|left; set_solver]|].
  split; [done|]. right. split; [done|]. unfold endpointMarkers.
  repeat (constructor; [done|]). constructor.
Qed.

(** X1: the endpoint name of a URL is one of the seven endpoints or
    [other]; it is [other] exactly when the URL contains none of the seven
    markers; a URL that contains [GetFriendList] anywhere is [friends]
    whatever else it contains; and the request timeout is 25000 exactly for
    URLs that contain [inventory] but not [GetFriendList]. *)
Theorem getEndpointName_total (url : string) :
  (getEndpointName url ∈ allEndpoints ∨ getEndpointName url = "other") ∧
  (getEndpointName url = "other" ↔
     Forall (λ marker, includes marker url = false) endpointMarkers) ∧
  (∀ pre post, getEndpointName (pre +:+ "GetFriendList" +:+ post) = "friends") ∧
  (getTimeoutForEndpoint (getEndpointName url) = 25000 ↔
     includes "inventory" url = true ∧ includes "GetFriendList" url = false) ∧
  (getTimeoutForEndpoint (getEndpointName url) ≠ 25000 →
     getTimeoutForEndpoint (getEndpointName url) = 15000).
Proof.
  split; [|split; [|split; [|split]]].
  - destruct (getEndpointName_cases url) as [[_ ->]|[(_ & _ & ->)|(_ & _ & [H|[H _]])]];
      [left; set_solver | left; set_solver | by left | by right].
  - split.
    + intros Hother.
      destruct (getEndpointName_cases url) as [[_ H]|[(_ & _ & H)|(_ & _ & [H|[_ H]])]];
        [congruence | congruence | | done].
      rewrite Hother in H. exfalso. unfold allEndpoints in H.
      apply list_elem_of_In in H. simpl in H.
      repeat (destruct H as [H|H]; [discriminate|]). done.
    + intros Hall. unfold endpointMarkers in Hall.
      repeat (apply Forall_cons in Hall as [? Hall]).
      unfold getEndpointName.
      repeat match goal with H : includes _ url = false |- _ => rewrite H; clear H end.
      done.
  - intros pre post. unfold getEndpointName.
    rewrite (proj2 (includes_spec "GetFriendList" _)); [done|]. by exists pre, post.
  - unfold getTimeoutForEndpoint.
    destruct (getEndpointName_cases url) as [[H1 ->]|[(H1 & H2 & ->)|(H2 & Hne & _)]].
    + rewrite decide_False by done. split; [done|]. intros [_ ?]. congruence.
    + rewrite decide_True by done. done.
    + rewrite decide_False by done. split; [done|]. intros [? _]. congruence.
  - unfold getTimeoutForEndpoint. by case_decide.
Qed.

(** What a fixed-duration cooldown writes. *)
Lemma markEndpointCooldown_fixed fsWriteOk now e errorType msg cm :
  errorType ≠ "429" →
  let duration :=
    if decide (errorType = "connection_error") then connection_reset (cooldownDurations cm)
    else if decide (errorType = "timeout") then timeout (cooldownDurations cm)
    else if decide (errorType = "dns_failure") then dns_failure (cooldownDurations cm)
    else 60000 in
  let cm' := markEndpointCooldown fsWriteOk now e errorType msg cm in
  cooldowns cm' =
    <[e := {| cooldown_until := now + duration; reason := errorType;
              backoff_level := None; applied_at := now; error_message := msg;
              duration_minutes := None; duration_used := Some duration |}]> (cooldowns cm) ∧
  backoffLevels cm' = backoffLevels cm ∧
  backoffSequence cm' = backoffSequence cm ∧
  cooldownDurations cm' = cooldownDurations cm ∧
  saveCalls cm' = S (saveCalls cm) ∧
  cooldownFile cm' = (if fsWriteOk (saveCalls cm) then cooldowns cm' else cooldownFile cm).
Proof.
  intros Hne. unfold markEndpointCooldown. rewrite decide_False by done. done.
Qed.

(** X2: every message gets one of the three categories; a message put in
    [dns_failure] or [timeout] is one that [isConnectionError] accepts; and
    for each category [markEndpointCooldown] takes the duration from the
    configuration, never the 60000 ms fallback for unknown types. *)
Theorem categorizeConnectionError_sound (fsWriteOk : nat → bool) (errorMsg : string)
    (now : Z) (endpoint : string) (cm : t) :
  let errorType := categorizeConnectionError errorMsg in
  errorType ∈ ["dns_failure"; "timeout"; "connection_error"] ∧
  (errorType ≠ "connection_error" → isConnectionError errorMsg = true) ∧
  (errorType = "dns_failure" ↔
     includes "ENOTFOUND" errorMsg = true ∨ includes "EHOSTUNREACH" errorMsg = true) ∧
  duration_used <$> cooldowns (markEndpointCooldown fsWriteOk now endpoint errorType
                                 errorMsg cm) !! endpoint =
    Some (Some (if decide (errorType = "dns_failure") then dns_failure (cooldownDurations cm)
                else if decide (errorType = "timeout") then timeout (cooldownDurations cm)
                else connection_reset (cooldownDurations cm))).
Proof.
  intros errorType. subst errorType. unfold categorizeConnectionError, isConnectionError.
  destruct (includes "ENOTFOUND" errorMsg) eqn:H1;
    destruct (includes "EHOSTUNREACH" errorMsg) eqn:H2;
    destruct (includes "timeout" errorMsg) eqn:H3;
    destruct (includes "ETIMEDOUT" errorMsg) eqn:H4; cbn [orb];
    (split; [set_solver|]);
    (split; [intros; by rewrite ?orb_true_r|]);
    (split; [split; [by auto | intros [?|?]; done]|]);
    match goal with |- context [markEndpointCooldown _ _ _ ?ty _ _] =>
      destruct (markEndpointCooldown_fixed fsWriteOk now endpoint ty errorMsg cm)
        as (-> & _); [done|]
    end; by rewrite lookup_insert_eq.
Qed.

(** [resetBackoffOnSuccess], field by field. *)
Lemma resetBackoffOnSuccess_explicit fsWriteOk e cm :
  let cm' := resetBackoffOnSuccess fsWriteOk e cm in
  backoffLevels cm' = delete e (backoffLevels cm) ∧
  backoffSequence cm' = backoffSequence cm ∧
  cooldowns cm' =
    match cooldowns cm !! e with
    | Some c => if decide (reason c = "429") then delete e (cooldowns cm) else cooldowns cm
    | None => cooldowns cm
    end ∧
  (cooldownFile cm' = cooldownFile cm ∨ cooldownFile cm' = cooldowns cm').
Proof.
  intros cm'. subst cm'. unfold resetBackoffOnSuccess. cbv zeta.
  set (cm1 := if bool_decide (is_Some (backoffLevels cm !! e))
              then set_backoffLevels (delete e (backoffLevels cm)) cm else cm).
  assert (cooldowns cm1 = cooldowns cm ∧ cooldownFile cm1 = cooldownFile cm ∧
          backoffSequence cm1 = backoffSequence cm ∧
          backoffLevels cm1 = delete e (backoffLevels cm)) as (Hc1 & Hf1 & Hs1 & Hl1).
  { subst cm1. case_bool_decide as Hhad; repeat split.
    symmetry. apply delete_id. by apply eq_None_not_Some. }
  clearbody cm1. rewrite Hc1. destruct (cooldowns cm !! e) as [c|]; [|by eauto].
  destruct (decide (reason c = "429")); [|by eauto]. cbn.
  repeat split; try done.
  destruct (fsWriteOk (saveCalls cm1)); [by right | by left].
Qed.

(** [cleanupExpiredCooldowns] on the fields other than [cooldowns]. *)
Lemma cleanupExpiredCooldowns_file fsWriteOk now cm :
  let cm' := (cleanupExpiredCooldowns fsWriteOk now cm).2 in
  (cooldownFile cm' = cooldownFile cm ∨ cooldownFile cm' = cooldowns cm') ∧
  ((0 < (cleanupExpiredCooldowns fsWriteOk now cm).1)%nat →
     fsWriteOk (saveCalls cm) = true → cooldownFile cm' = cooldowns cm') ∧
  cooldownDurations cm' = cooldownDurations cm.
Proof.
  intros cm'. subst cm'. unfold cleanupExpiredCooldowns.
  destruct (cleanupLoop now (map_to_list (cooldowns cm)).*1 (cooldowns cm) 0) as [m n].
  cbn [fst snd]. destruct (0 <? n)%nat eqn:Hn; cbn.
  - destruct (fsWriteOk (saveCalls cm)); (split; [by eauto|]); split; done.
  - split; [by left|]. split; [|done]. intros Hpos. apply Nat.ltb_lt in Hpos. congruence.
Qed.

(** X3: [handleRequestError] touches nothing but the endpoint the request
    was made for; it returns the plain error object exactly when there is no
    connection info or the error is neither a 429 nor a connection error, and
    then changes nothing at all; a 429 status wins over whatever the message
    says; and a connection error leaves every backoff level as it was. *)
Theorem handleRequestError_frame (fsWriteOk : nat → bool) (now : Z)
    (error : RequestError) (connectionInfo : option string) (cm : t) :
  let r := handleRequestError fsWriteOk now error connectionInfo cm in
  (∀ e', connectionInfo ≠ Some e' →
     cooldowns r.2 !! e' = cooldowns cm !! e' ∧
     backoffLevels r.2 !! e' = backoffLevels cm !! e') ∧
  (r.1 = PlainError ↔
     connectionInfo = None ∨
     (responseStatus error ≠ Some 429 ∧ isConnectionError (message error) = false)) ∧
  (r.1 = PlainError → r.2 = cm) ∧
  (∀ e, connectionInfo = Some e → responseStatus error = Some 429 →
     r.1 = RateLimited e ∧ reason <$> cooldowns r.2 !! e = Some "429") ∧
  (∀ e errorType, r.1 = ConnectionError e errorType →
     errorType = categorizeConnectionError (message error) ∧
     backoffLevels r.2 = backoffLevels cm ∧
     reason <$> cooldowns r.2 !! e = Some errorType).
Proof.
  intros r. subst r. unfold handleRequestError.
  destruct connectionInfo as [e|]; [|by repeat split; eauto; try done; intros ? [=]].
  assert (categorizeConnectionError (message error) ≠ "429") as Hcat.
  { unfold categorizeConnectionError. by repeat case_match. }
  case_bool_decide as H429.
  - destruct (CooldownFacts.markEndpointCooldown_429 fsWriteOk now e (message error) cm)
      as (Hl & Hc & _).
    cbn [fst snd]. rewrite Hl, Hc. split; [|split; [|split; [|split]]].
    + intros e' Hne. rewrite !lookup_insert_ne by congruence. done.
    + split; [done|]. intros [?|[? _]]; done.
    + done.
    + intros ? [= <-] _. by rewrite lookup_insert_eq.
    + done.
  - destruct (isConnectionError (message error)) eqn:Hconn.
    + destruct (markEndpointCooldown_fixed fsWriteOk now e
                  (categorizeConnectionError (message error)) (message error) cm Hcat)
        as (Hc & Hl & _).
      cbn [fst snd]. rewrite Hl, Hc. split; [|split; [|split; [|split]]].
      * intros e' Hne. rewrite !lookup_insert_ne by congruence. done.
      * split; [done|]. intros [?|[_ ?]]; done.
      * done.
      * intros ? _ ?. done.
      * intros ? ? [= <- <-]. by rewrite lookup_insert_eq.
    + cbn [fst snd]. split; [done|]. split; [split; [by right|done]|].
      split; [done|]. split; [intros ? _ ?; done | done].
Qed.

(** X4: after a 429 has been handled for the endpoint of a URL, a request
    for that URL is refused, with the remaining time, at every moment before
    the deadline [now + minutes * 60000], and gets an instance from the
    deadline on; [minutes] is the backoff entry at the escalated level.
    The sequence is not empty and the stored level not negative, so that the
    escalated level is an index of the sequence. *)
Theorem rate_limit_refuses_until_deadline (fsWriteOk : nat → bool) (now now' : Z)
    (error : RequestError) (url : string) (cm : t) :
  responseStatus error = Some 429 →
  backoffSequence cm ≠ [] →
  0 ≤ default 0 (backoffLevels cm !! getEndpointName url) →
  let endpointName := getEndpointName url in
  let minutes :=
    seqAt (backoffSequence cm)
          (Z.min (default 0 (backoffLevels cm !! endpointName) + 1)
                 (Z.of_nat (length (backoffSequence cm)) - 1)) in
  let cm' := (handleRequestError fsWriteOk now error (Some endpointName) cm).2 in
  createAxiosInstance now' url cm' =
    if now + minutes * 60 * 1000 <=? now'
    then Instance (getTimeoutForEndpoint endpointName) endpointName
    else AllInCooldown (now + minutes * 60 * 1000 - now') endpointName.
Proof.
  intros H429 _ _ endpointName minutes cm'. subst cm'. unfold handleRequestError.
  rewrite bool_decide_eq_true_2 by done. cbn [snd].
  destruct (CooldownFacts.markEndpointCooldown_429 fsWriteOk now endpointName
              (message error) cm) as (_ & Hc & _).
  unfold createAxiosInstance, isEndpointAvailable, getNextAvailableTimeForEndpoint.
  fold endpointName. rewrite Hc, lookup_insert_eq. cbn [cooldown_until]. fold minutes.
  destruct (now + minutes * 60 * 1000 <=? now') eqn:Hle; cbn [negb]; [done|].
  apply Z.leb_gt in Hle. f_equal. lia.
Qed.

Lemma rate_limit_refuses_until_deadline_witness :
  let error := {| message := "Request failed with status code 429";
                  responseStatus := Some 429 |} in
  let url := "https://api.steampowered.com/ISteamUser/GetFriendList/v1/" in
  let cm := construct allWritesOk sampleDurations [1; 2; 4] None 0 in
  createAxiosInstance 60000 url (handleRequestError allWritesOk 0 error (Some "friends") cm).2
    = AllInCooldown 60000 "friends" ∧
  createAxiosInstance 120000 url (handleRequestError allWritesOk 0 error (Some "friends") cm).2
    = Instance 15000 "friends".
Proof.
  intros error url cm. split.
  - apply (rate_limit_refuses_until_deadline allWritesOk 0 60000 error url cm);
      [reflexivity | done | by vm_compute].
  - apply (rate_limit_refuses_until_deadline allWritesOk 0 120000 error url cm);
      [reflexivity | done | by vm_compute].
Defined.


(** X6: a second cleanup, at the same or an earlier clock reading, finds
    nothing to remove, saves nothing and leaves the controller as it is. *)
Theorem cleanup_idempotent (fsWriteOk : nat → bool) (now now' : Z) (cm : t) :
  now' ≤ now →
  cleanupExpiredCooldowns fsWriteOk now' (cleanupExpiredCooldowns fsWriteOk now cm).2 =
    (0%nat, (cleanupExpiredCooldowns fsWriteOk now cm).2).
Proof.
  intros Hle. set (cm1 := (cleanupExpiredCooldowns fsWriteOk now cm).2).
  assert (∀ e c, cooldowns cm1 !! e = Some c → now' < cooldown_until c) as Hlive.
  { intros e c. subst cm1. rewrite CooldownFacts.cleanupExpiredCooldowns_lookup.
    destruct (cooldowns cm !! e) as [c0|]; [|done].
    destruct (cooldown_until c0 <=? now) eqn:Hexp; [done|].
    intros [= <-]. apply Z.leb_gt in Hexp. lia. }
  clearbody cm1. unfold cleanupExpiredCooldowns.
  rewrite (CooldownFacts.cleanupLoop_none_expired fsWriteOk now' _ (cooldowns cm1) 0%nat);
    [|intros e c _; apply Hlive].
  cbn. by destruct cm1.
Qed.

Lemma cleanup_idempotent_witness :
  cleanupExpiredCooldowns allWritesOk 121000
    (cleanupExpiredCooldowns allWritesOk 121000 limitedOnce).2 =
  (0%nat, (cleanupExpiredCooldowns allWritesOk 121000 limitedOnce).2).
Proof. apply (cleanup_idempotent allWritesOk 121000 121000 limitedOnce). lia. Defined.

(** X7: cleaning up is invisible to availability queries made at that moment
    or later: every endpoint is available, and has the same waiting time,
    with or without the cleanup; so [isEndpointInCooldown], which cleans up
    first, answers the negation of [isEndpointAvailable]. *)
Theorem cleanup_transparent (fsWriteOk : nat → bool) (now now' : Z)
    (endpoint : string) (cm : t) :
  now ≤ now' →
  let cm' := (cleanupExpiredCooldowns fsWriteOk now cm).2 in
  isEndpointAvailable now' endpoint cm' = isEndpointAvailable now' endpoint cm ∧
  getNextAvailableTimeForEndpoint now' endpoint cm'
    = getNextAvailableTimeForEndpoint now' endpoint cm ∧
  (isEndpointInCooldown fsWriteOk now endpoint cm).1
    = negb (isEndpointAvailable now endpoint cm) ∧
  (areAllConnectionsInCooldownForEndpoint fsWriteOk now endpoint cm).1
    = negb (isEndpointAvailable now endpoint cm).
Proof.
  intros Hle cm'. subst cm'.
  unfold areAllConnectionsInCooldownForEndpoint, isEndpointInCooldown. cbn [fst].
  rewrite CooldownFacts.cleanup_keeps_availability.
  unfold isEndpointAvailable, getNextAvailableTimeForEndpoint.
  rewrite CooldownFacts.cleanupExpiredCooldowns_lookup.
  destruct (cooldowns cm !! endpoint) as [c|]; [|done].
  destruct (cooldown_until c <=? now) eqn:Hexp; [|done].
  apply Z.leb_le in Hexp. repeat split; [|lia].
  symmetry. apply Z.leb_le. lia.
Qed.

Lemma cleanup_transparent_witness :
  isEndpointAvailable 130000 "friends"
    (cleanupExpiredCooldowns allWritesOk 121000 limitedOnce).2 = true ∧
  isEndpointAvailable 130000 "friends" limitedOnce = true.
Proof.
  destruct (cleanup_transparent allWritesOk 121000 130000 "friends" limitedOnce)
    as (Hav & _); [lia|].
  split; [rewrite Hav|]; vm_compute; reflexivity.
Defined.

(** *** Backoff levels stay inside the sequence *)

Lemma recordsBounded_subset len (m m' : gmap string EndpointCooldown) :
  (∀ e c, m' !! e = Some c → m !! e = Some c) → recordsBounded len m → recordsBounded len m'.
Proof. intros Hsub Hb e c l Hc. apply (Hb e c l). by apply Hsub. Qed.

Lemma wellFormed_markEndpointCooldown fsWriteOk now e errorType msg cm :
  wellFormed cm → wellFormed (markEndpointCooldown fsWriteOk now e errorType msg cm).
Proof.
  intros (Hseq & Hlev & Hrec & Hfile).
  destruct (decide (errorType = "429")) as [->|Hne].
  - destruct (CooldownFacts.markEndpointCooldown_429 fsWriteOk now e msg cm) as (Hl & Hc & Hs).
    assert (0 ≤ default 0 (backoffLevels cm !! e)) as Hpos.
    { destruct (backoffLevels cm !! e) as [l|] eqn:Hl0; [|done]. apply (Hlev e l Hl0). }
    destruct (CooldownFacts.level_in_range e cm Hseq Hpos) as [Hrange _].
    assert (recordsBounded (length (backoffSequence cm))
              (cooldowns (markEndpointCooldown fsWriteOk now e "429" msg cm))) as Hrec'.
    { rewrite Hc. intros e' c l. rewrite lookup_insert. case_decide.
      - intros [= <-]. cbn. by intros [= <-].
      - apply Hrec. }
    split; [by rewrite Hs|]. split; [|split].
    + intros e' l. rewrite Hl, Hs, lookup_insert. case_decide; [by intros [= <-] | apply Hlev].
    + by rewrite Hs.
    + rewrite Hs. unfold markEndpointCooldown in *. rewrite decide_True in * by done.
      cbn in *. by destruct (fsWriteOk (saveCalls cm)).
  - destruct (markEndpointCooldown_fixed fsWriteOk now e errorType msg cm Hne)
      as (Hc & Hl & Hs & _ & _ & Hf).
    assert (recordsBounded (length (backoffSequence cm))
              (cooldowns (markEndpointCooldown fsWriteOk now e errorType msg cm))) as Hrec'.
    { rewrite Hc. intros e' c l. rewrite lookup_insert.
      destruct (decide (e = e')) as [_|_].
      - by intros [= <-].
      - apply Hrec. }
    split; [by rewrite Hs|]. split; [|split].
    + intros e' l. rewrite Hl, Hs. apply Hlev.
    + by rewrite Hs.
    + rewrite Hs, Hf. by destruct (fsWriteOk (saveCalls cm)).
Qed.

(** A restart, field by field. *)
Lemma restart_explicit fsWriteOk cm :
  backoffSequence cm ≠ [] →
  backoffLevels (restart fsWriteOk cm) =
    omap (λ c, if decide (reason c = "429") then backoff_level c else None) (cooldownFile cm) ∧
  cooldowns (restart fsWriteOk cm) = cooldownFile cm ∧
  backoffSequence (restart fsWriteOk cm) = backoffSequence cm ∧
  cooldownFile (restart fsWriteOk cm) = cooldownFile cm.
Proof.
  intros Hseq. unfold restart, construct, initializeBackoffLevelsFromFile,
    set_backoffLevels, saveCooldowns.
  cbn [backoffLevels cooldowns backoffSequence cooldownFile saveCalls default from_option id].
  split; [apply (right_id_L ∅ (∪))|]. split; [done|].
  split; [by destruct (backoffSequence cm)|]. by destruct (fsWriteOk (saveCalls cm)).
Qed.

Lemma construct_fresh fsWriteOk durations sequence writes :
  let cm := construct fsWriteOk durations sequence None writes in
  backoffLevels cm = ∅ ∧ cooldowns cm = ∅ ∧ cooldownFile cm = ∅ ∧
  backoffSequence cm = match sequence with [] => fallbackSequence | _ => sequence end.
Proof.
  unfold construct, initializeBackoffLevelsFromFile, set_backoffLevels, saveCooldowns.
  cbn [backoffLevels cooldowns backoffSequence cooldownFile saveCalls default from_option id].
  split; [by rewrite omap_empty, (right_id_L ∅ (∪))|]. split; [done|]. split; [|done].
  by destruct (fsWriteOk writes).
Qed.

Lemma wellFormed_run fsWriteOk op cm : wellFormed cm → wellFormed (run fsWriteOk op cm).
Proof.
  intros Hwf. destruct op as [now e ty msg|now error info|e|now|]; cbn [run].
  - by apply wellFormed_markEndpointCooldown.
  - unfold handleRequestError. destruct info as [e|]; [|done].
    case_bool_decide; [by apply wellFormed_markEndpointCooldown|].
    destruct (isConnectionError (message error)); [|done].
    by apply wellFormed_markEndpointCooldown.
  - destruct Hwf as (Hseq & Hlev & Hrec & Hfile).
    destruct (resetBackoffOnSuccess_explicit fsWriteOk e cm) as (Hl & Hs & Hc & Hf).
    assert (recordsBounded (length (backoffSequence cm))
              (cooldowns (resetBackoffOnSuccess fsWriteOk e cm))) as Hrec'.
    { rewrite Hc. destruct (cooldowns cm !! e) as [c|]; [|done].
      destruct (decide _); [|done].
      eapply recordsBounded_subset; [|exact Hrec]. intros e' c'.
      rewrite lookup_delete. by case_decide. }
    split; [by rewrite Hs|]. split; [|split].
    + intros e' l. rewrite Hl, Hs, lookup_delete. case_decide; [done|apply Hlev].
    + by rewrite Hs.
    + rewrite Hs. by destruct Hf as [-> | ->].
  - destruct Hwf as (Hseq & Hlev & Hrec & Hfile).
    assert (recordsBounded (length (backoffSequence cm))
              (cooldowns (cleanupExpiredCooldowns fsWriteOk now cm).2)) as Hrec'.
    { eapply recordsBounded_subset; [|exact Hrec]. intros e c.
      rewrite CooldownFacts.cleanupExpiredCooldowns_lookup.
      destruct (cooldowns cm !! e) as [c0|]; [|done]. by destruct (_ <=? _). }
    unfold wellFormed, levelsBounded.
    rewrite CooldownFacts.cleanupExpiredCooldowns_backoffSequence,
      CooldownFacts.cleanupExpiredCooldowns_backoffLevels.
    split; [done|]. split; [done|]. split; [done|].
    by destruct (cleanupExpiredCooldowns_file fsWriteOk now cm) as ([-> | ->] & _).
  - destruct Hwf as (Hseq & Hlev & Hrec & Hfile).
    destruct (restart_explicit fsWriteOk cm Hseq) as (Hl & Hc & Hs & Hf).
    unfold wellFormed, levelsBounded. rewrite Hl, Hc, Hs, Hf.
    split; [done|]. split; [|done].
    intros e l. rewrite lookup_omap.
    destruct (cooldownFile cm !! e) as [c|] eqn:Hce; [|done]. cbn.
    case_decide; [|done]. intros Hbl. by apply (Hfile e c l).
Qed.

(** X8: in every controller that started without a cooldown file, whatever
    was marked, handled, reset, cleaned up or restarted since, the backoff
    sequence is not empty and every stored backoff level, in the table and in
    the records in memory and on file, is an index into it. *)
Theorem backoff_levels_bounded (fsWriteOk : nat → bool) (cm : t) :
  reachable fsWriteOk cm → wellFormed cm.
Proof.
  induction 1 as [durations sequence writes|cm op _ IH]; [|by apply wellFormed_run].
  destruct (construct_fresh fsWriteOk durations sequence writes) as (Hl & Hc & Hf & Hs).
  unfold wellFormed, levelsBounded, recordsBounded. rewrite Hl, Hc, Hf, Hs.
  split; [by destruct sequence|]. by setoid_rewrite lookup_empty.
Qed.

Lemma backoff_levels_bounded_witness : wellFormed (restart allWritesOk limitedOnce).
Proof.
  apply (backoff_levels_bounded allWritesOk).
  apply (reachable_step allWritesOk _ Restart).
  apply (reachable_step allWritesOk _ (MarkCooldown 0 "friends" "429" "Too Many Requests")).
  apply reachable_fresh.
Defined.

(** X9: after a success is reported for an endpoint, the next rate limit
    starts over: whatever level the endpoint had, it gets level
    [min 1 (len - 1)] and that entry's minutes, for a sequence that is not
    empty. *)
Theorem success_restarts_backoff (fsWriteOk : nat → bool) (now : Z)
    (e msg : string) (cm : t) :
  backoffSequence cm ≠ [] →
  let cm' := markEndpointCooldown fsWriteOk now e "429" msg
               (resetBackoffOnSuccess fsWriteOk e cm) in
  let level := Z.min 1 (Z.of_nat (length (backoffSequence cm)) - 1) in
  backoffLevels cm' !! e = Some level ∧
  duration_minutes <$> cooldowns cm' !! e = Some (Some (seqAt (backoffSequence cm) level)) ∧
  cooldown_until <$> cooldowns cm' !! e
    = Some (now + seqAt (backoffSequence cm) level * 60 * 1000).
Proof.
  intros _ cm' level. subst cm' level.
  destruct (resetBackoffOnSuccess_explicit fsWriteOk e cm) as (Hl0 & Hs0 & _).
  destruct (CooldownFacts.markEndpointCooldown_429 fsWriteOk now e msg
              (resetBackoffOnSuccess fsWriteOk e cm)) as (Hl & Hc & _).
  rewrite Hl, Hc, Hl0, Hs0, !lookup_insert_eq, lookup_delete_eq. done.
Qed.

Lemma success_restarts_backoff_witness :
  backoffLevels (markEndpointCooldown allWritesOk 7200000 "friends" "429" "Too Many Requests"
                   (resetBackoffOnSuccess allWritesOk "friends" limitedOnce)) !! "friends"
    = Some 1.
Proof.
  destruct (success_restarts_backoff allWritesOk 7200000 "friends" "Too Many Requests"
              limitedOnce) as (Hlevel & _); [done|].
  exact Hlevel.
Defined.

(** X10: a restart right after a rate limit whose save succeeded restores
    the endpoint's level and all cooldown records; the restarted table
    holds, for each endpoint, the level written in its 429 record on file,
    and nothing for an endpoint without such a record. *)
Theorem restart_restores_recorded_level (fsWriteOk : nat → bool) (now : Z)
    (e msg : string) (cm : t) :
  fsWriteOk (saveCalls cm) = true →
  backoffSequence cm ≠ [] →
  0 ≤ default 0 (backoffLevels cm !! e) →
  let cm1 := markEndpointCooldown fsWriteOk now e "429" msg cm in
  backoffLevels (restart fsWriteOk cm1) !! e = backoffLevels cm1 !! e ∧
  cooldowns (restart fsWriteOk cm1) = cooldowns cm1 ∧
  (∀ e', backoffLevels (restart fsWriteOk cm1) !! e' =
         match cooldowns cm1 !! e' with
         | Some c => if decide (reason c = "429") then backoff_level c else None
         | None => None
         end).
Proof.
  intros Hok Hseq _ cm1.
  destruct (CooldownFacts.markEndpointCooldown_429 fsWriteOk now e msg cm) as (Hl & Hc & Hs).
  assert (cooldownFile cm1 = cooldowns cm1) as Hfile.
  { subst cm1. unfold markEndpointCooldown. rewrite decide_True by done. cbn. by rewrite Hok. }
  destruct (restart_explicit fsWriteOk cm1) as (Hrl & Hrc & _); [subst cm1; by rewrite Hs|].
  rewrite Hrl, Hrc, Hfile. fold cm1 in Hl, Hc.
  assert (∀ e', omap (λ c, if decide (reason c = "429") then backoff_level c else None)
                     (cooldowns cm1) !! e' =
                match cooldowns cm1 !! e' with
                | Some c => if decide (reason c = "429") then backoff_level c else None
                | None => None
                end) as Hall.
  { intros e'. rewrite lookup_omap. by destruct (cooldowns cm1 !! e'). }
  split; [|split; [done|exact Hall]].
  rewrite Hall, Hc, Hl, !lookup_insert_eq. done.
Qed.

Lemma restart_restores_recorded_level_witness :
  backoffLevels (restart allWritesOk limitedOnce) !! "friends" = Some 1.
Proof.
  destruct (restart_restores_recorded_level allWritesOk 0 "friends" "Too Many Requests"
              (construct allWritesOk sampleDurations [1; 2; 4] None 0))
    as (Hlevel & _); [reflexivity | done | by vm_compute |].
  unfold limitedOnce. rewrite Hlevel. vm_compute. reflexivity.
Defined.

(** X11: the level kept in memory across a cooldown's expiry does not
    survive a restart: once the expired record has been cleaned up and the
    file saved, the cleaned controller still has the level, the restarted one
    has none, and its next rate limit gets [min 1 (len - 1)]. *)
Theorem restart_forgets_cleaned_level (fsWriteOk : nat → bool) (now now' : Z)
    (e msg : string) (c : EndpointCooldown) (cm : t) :
  fsWriteOk (saveCalls cm) = true →
  backoffSequence cm ≠ [] →
  cooldowns cm !! e = Some c →
  cooldown_until c ≤ now →
  let cm1 := (cleanupExpiredCooldowns fsWriteOk now cm).2 in
  backoffLevels cm1 !! e = backoffLevels cm !! e ∧
  backoffLevels (restart fsWriteOk cm1) !! e = None ∧
  backoffLevels (markEndpointCooldown fsWriteOk now' e "429" msg (restart fsWriteOk cm1)) !! e
    = Some (Z.min 1 (Z.of_nat (length (backoffSequence cm)) - 1)).
Proof.
  intros Hok Hseq Hc Hexp cm1.
  assert (backoffSequence cm1 = backoffSequence cm) as Hs1
    by apply CooldownFacts.cleanupExpiredCooldowns_backoffSequence.
  assert (cooldownFile cm1 = cooldowns cm1) as Hfile.
  { apply (cleanupExpiredCooldowns_file fsWriteOk now cm); [|done].
    apply CooldownFacts.cleanupExpiredCooldowns_count. eauto. }
  assert (cooldowns cm1 !! e = None) as Hgone.
  { subst cm1. rewrite CooldownFacts.cleanupExpiredCooldowns_lookup, Hc.
    by rewrite (proj2 (Z.leb_le _ _) Hexp). }
  destruct (restart_explicit fsWriteOk cm1) as (Hrl & _ & Hrs & _); [by rewrite Hs1|].
  assert (backoffLevels (restart fsWriteOk cm1) !! e = None) as Hnone.
  { by rewrite Hrl, lookup_omap, Hfile, Hgone. }
  split; [subst cm1; by rewrite CooldownFacts.cleanupExpiredCooldowns_backoffLevels|].
  split; [done|].
  destruct (CooldownFacts.markEndpointCooldown_429 fsWriteOk now' e msg
              (restart fsWriteOk cm1)) as (Hl & _).
  rewrite Hl, lookup_insert_eq, Hnone, Hrs, Hs1. done.
Qed.

Lemma restart_forgets_cleaned_level_witness :
  let cleaned := (cleanupExpiredCooldowns allWritesOk 121000 limitedOnce).2 in
  backoffLevels cleaned !! "friends" = Some 1 ∧
  backoffLevels (restart allWritesOk cleaned) !! "friends" = None ∧
  backoffLevels (markEndpointCooldown allWritesOk 130000 "friends" "429" "Too Many Requests"
                   (restart allWritesOk cleaned)) !! "friends" = Some 1.
Proof.
  intros cleaned.
  assert (∃ c, cooldowns limitedOnce !! "friends" = Some c ∧ cooldown_until c ≤ 121000)
    as (c & Hc & Hexp) by (eexists; split; [vm_compute; reflexivity | vm_compute; discriminate]).
  destruct (restart_forgets_cleaned_level allWritesOk 121000 130000 "friends"
              "Too Many Requests" c limitedOnce) as (Hkept & Hnone & Hnext);
    [reflexivity | done | exact Hc | exact Hexp |].
  split; [|split; [exact Hnone | exact Hnext]].
  subst cleaned. rewrite Hkept. vm_compute. reflexivity.
Defined.

(** X12: the duration that [markEndpointCooldown] logs as the next one,
    [getNextBackoffDuration(newLevel)], is the duration the next rate limit
    applies as long as the new level is below the last index; at the last
    index it reports the first entry of the sequence, while the next rate
    limit applies the last entry again. *)
Theorem next_backoff_duration_vs_applied (fsWriteOk : nat → bool) (now now' : Z)
    (e msg msg' : string) (cm : t) :
  backoffSequence cm ≠ [] →
  0 ≤ default 0 (backoffLevels cm !! e) →
  let len := Z.of_nat (length (backoffSequence cm)) in
  let newLevel := Z.min (default 0 (backoffLevels cm !! e) + 1) (len - 1) in
  let cm1 := markEndpointCooldown fsWriteOk now e "429" msg cm in
  let cm2 := markEndpointCooldown fsWriteOk now' e "429" msg' cm1 in
  (newLevel + 1 < len →
     duration_minutes <$> cooldowns cm2 !! e = Some (Some (getNextBackoffDuration newLevel cm1))) ∧
  (newLevel = len - 1 →
     getNextBackoffDuration newLevel cm1 = seqAt (backoffSequence cm) 0 ∧
     duration_minutes <$> cooldowns cm2 !! e
       = Some (Some (seqAt (backoffSequence cm) (len - 1)))).
Proof.
  intros Hseq Hpos len newLevel cm1 cm2.
  destruct (CooldownFacts.markEndpointCooldown_429 fsWriteOk now e msg cm) as (Hl & _ & Hs).
  destruct (CooldownFacts.markEndpointCooldown_429 fsWriteOk now' e msg' cm1) as (_ & Hc2 & _).
  fold cm1 in Hl, Hs. fold cm2 in Hc2.
  rewrite Hc2, lookup_insert_eq, Hl, lookup_insert_eq, Hs. cbn [fmap option_fmap option_map
    duration_minutes default from_option id]. fold len newLevel.
  unfold getNextBackoffDuration. rewrite Hs. fold len.
  assert (0 < len) by (subst len; destruct (backoffSequence cm); [done | cbn; lia]).
  split.
  - intros Hlt. rewrite (proj2 (Z.leb_gt _ _) Hlt). do 3 f_equal. lia.
  - intros Hlast. rewrite (proj2 (Z.leb_le len (newLevel + 1))) by lia.
    split; [done|]. do 3 f_equal. lia.
Qed.

Lemma next_backoff_duration_vs_applied_witness :
  let fresh := construct allWritesOk sampleDurations [1; 2; 4] None 0 in
  let cm2 := markEndpointCooldown allWritesOk 200000 "friends" "429" "again" limitedOnce in
  let cm3 := markEndpointCooldown allWritesOk 500000 "friends" "429" "again" cm2 in
  duration_minutes <$> cooldowns cm2 !! "friends"
    = Some (Some (getNextBackoffDuration 1 limitedOnce)) ∧
  getNextBackoffDuration 2 cm2 = 1 ∧
  duration_minutes <$> cooldowns cm3 !! "friends" = Some (Some 4).
Proof.
  intros fresh cm2 cm3.
  destruct (next_backoff_duration_vs_applied allWritesOk 0 200000 "friends"
              "Too Many Requests" "again" fresh) as [Hbelow _];
    [done | vm_compute; discriminate |].
  destruct (next_backoff_duration_vs_applied allWritesOk 200000 500000 "friends"
              "again" "again" limitedOnce) as [_ Hlast];
    [done | vm_compute; discriminate |].
  split; [apply Hbelow; vm_compute; reflexivity|].
  destruct Hlast as [Hlog Happlied]; [vm_compute; reflexivity|].
  split; [exact Hlog | exact Happlied].
Defined.

End CooldownExtra.

(** * Further properties of the check store *)

Module StoreExtra.
Import QueueManager StoreSpec.

Ltac unfold_store :=
  unfold addProfileToQueue, updateProfileCheck, removeProfileFromQueue,
    convertDeferredChecksToToCheck, getProfileBySteamId, processNextQueued,
    getAllChecksPassed, getAllChecksComplete, getDeferredCheckStats,
    getDeferredChecksFromQueue, updateProfileCheckExternal, try_catch, bind,
    readQueueProfiles, writeQueueProfiles, callService, ret, throw, get,
    getQueuedProfilesSync in *.

(** [trim] beyond ASCII: a no-break space, a byte order mark followed by a
    space and a line separator are blank; the next-line control U+0085 and a
    name with a letter are not. *)
Lemma isBlank_beyond_ascii :
  isBlank (String "194"%char (String "160"%char "")) = true ∧
  isBlank (String "239"%char (String "187"%char (String "191"%char " "))) = true ∧
  isBlank (String "226"%char (String "128"%char (String "168"%char ""))) = true ∧
  isBlank (String "194"%char (String "133"%char "")) = false ∧
  isBlank " a " = false.
Proof. repeat split. Qed.

Lemma findProfile_None steamId profiles :
  findProfile steamId profiles = None ↔ steamId ∉ steam_id <$> profiles.
Proof.
  unfold findProfile. rewrite list_find_None, Forall_forall, list_elem_of_fmap. split.
  - intros Hall (p & -> & Hp). by apply (Hall p).
  - intros Hno p Hp Heq. apply Hno. by exists p.
Qed.

Lemma findProfile_Some steamId profiles i p :
  findProfile steamId profiles = Some (i, p) →
  steam_id p = steamId ∧ profiles !! i = Some p ∧ p ∈ profiles.
Proof.
  unfold findProfile. intros (Hi & Hid & _)%list_find_Some.
  repeat split; [done..|]. by eapply list_elem_of_lookup_2.
Qed.

Lemma findProfile_snoc steamId profiles p :
  findProfile steamId profiles = None → steam_id p = steamId →
  findProfile steamId (profiles ++ [p]) = Some (length profiles, p).
Proof.
  unfold findProfile. intros Hnone Hid. apply list_find_app_Some. right.
  split; [done|]. split; [done|]. rewrite Nat.sub_diag. cbn.
  by rewrite decide_True.
Qed.

(** [addProfileToQueue], case by case. *)
Lemma addProfileToQueue_explicit env steamId u api w :
  addProfileToQueue env steamId u api w =
  match findProfile steamId (getQueuedProfilesSync w) with
  | Some (_, existing) => (Returned (Some existing), w)
  | None =>
      if probeSaysExists api steamId then (Returned None, w)
      else if fsWriteOk env (fsWrites w)
      then (Returned (Some (newProfile env steamId u)), inserted (newProfile env steamId u) w)
      else (Thrown "Failed to save updated queue",
            {| queueFile := queueFile w; fsWrites := S (fsWrites w);
               serviceCalls := serviceCalls w |})
  end.
Proof.
  unfold_store. unfold probeSaysExists, inserted, newProfile.
  destruct (findProfile steamId (default [] (queueFile w))) as [[i existing]|]; [done|].
  destruct (match api with Some _ => _ | None => _ end); [done|].
  cbn. by destruct (fsWriteOk env (fsWrites w)).
Qed.

Lemma ids_alter_setCheck checkName status i (profiles : list Profile) :
  steam_id <$> alter (setCheck checkName status) i profiles = steam_id <$> profiles.
Proof.
  revert i. induction profiles as [|p profiles IH]; intros [|i]; cbn; [done..| |].
  - f_equal. apply StoreFacts.setCheck_frame.
  - f_equal. apply IH.
Qed.

Lemma ids_convert (profiles : list Profile) :
  steam_id <$> (convertProfile <$> profiles).*1 = steam_id <$> profiles.
Proof. induction profiles as [|p profiles IH]; cbn; [done|]. f_equal. apply IH. Qed.

Lemma uniqueIds_run env op w :
  uniqueIds (getQueuedProfilesSync w) → uniqueIds (getQueuedProfilesSync (run env op w)).
Proof.
  intros Hu. destruct op as [steamId u api|steamId checkName status|steamId|]; unfold run.
  - rewrite addProfileToQueue_explicit.
    destruct (findProfile steamId (getQueuedProfilesSync w)) as [[i existing]|] eqn:Hfind;
      [done|].
    destruct (probeSaysExists api steamId); [done|].
    destruct (fsWriteOk env (fsWrites w)); [|done].
    unfold uniqueIds, inserted. cbn. rewrite fmap_app. apply NoDup_app.
    split; [done|]. split; [|apply NoDup_singleton].
    intros x Hx Hx'. apply findProfile_None in Hfind. cbn in Hx'.
    apply list_elem_of_singleton in Hx'. by subst x.
  - unfold_store.
    destruct (findProfile steamId (default [] (queueFile w))) as [[i existing]|]; [|done].
    case_bool_decide; cbn; [|done].
    destruct (fsWriteOk env (fsWrites w)); cbn; [|done].
    unfold uniqueIds. by rewrite ids_alter_setCheck.
  - unfold_store. destruct (_ <? _)%nat; [|done].
    destruct (fsWriteOk env (fsWrites w)); cbn; [|done].
    assert (uniqueIds (filter (λ p, steam_id p ≠ steamId) (default [] (queueFile w)))) as Hf.
    { unfold uniqueIds. eapply sublist_NoDup; [exact Hu|].
      apply fmap_sublist, sublist_filter. }
    by destruct (redisQueueClient env).
  - unfold_store. destruct (0 <? _); [|done].
    destruct (fsWriteOk env (fsWrites w)); cbn; [|done].
    unfold uniqueIds. by rewrite ids_convert.
Qed.

(** X13: the store never holds two profiles with the same id: every store
    operation keeps the ids distinct, so they are distinct in every state
    built from the empty store. *)
Theorem profile_ids_unique (env : Env) (w : World) :
  reachableAny env w → uniqueIds (getQueuedProfilesSync w).
Proof.
  induction 1 as [w Hw|w op _ IH]; [|by apply uniqueIds_run].
  rewrite Hw. constructor.
Qed.

Lemma profile_ids_unique_witness :
  uniqueIds (getQueuedProfilesSync
               (run plainEnv (AddProfile "A" (Some "again") None) worldWithAlice)).
Proof.
  apply (profile_ids_unique plainEnv).
  apply reachableAny_step, reachableAny_step. by apply reachableAny_empty.
Defined.

(** A profile returned by an add is the one found under its id. *)
Lemma addProfileToQueue_found env steamId u api w p :
  (addProfileToQueue env steamId u api w).1 = Returned (Some p) →
  ∃ i, findProfile steamId (getQueuedProfilesSync (addProfileToQueue env steamId u api w).2)
       = Some (i, p).
Proof.
  rewrite !addProfileToQueue_explicit.
  destruct (findProfile steamId (getQueuedProfilesSync w)) as [[i existing]|] eqn:Hfind.
  - intros [= <-]. by exists i.
  - destruct (probeSaysExists api steamId); [done|].
    destruct (fsWriteOk env (fsWrites w)); [|done].
    intros [= <-]. eexists. by apply findProfile_snoc.
Qed.

(** X14: once an add has returned a profile, that profile is what a lookup
    by its id returns, and adding the same id again, with whatever user name
    and probe, returns the same profile and leaves the store, the write
    counter and the call log untouched. *)
Theorem addProfileToQueue_idempotent (env : Env) (steamId : string)
    (u u' : option string) (api api' : option ApiService) (w : World) (p : Profile) :
  (addProfileToQueue env steamId u api w).1 = Returned (Some p) →
  let w' := (addProfileToQueue env steamId u api w).2 in
  steam_id p = steamId ∧
  getProfileBySteamId steamId w' = (Returned (Some p), w') ∧
  addProfileToQueue env steamId u' api' w' = (Returned (Some p), w').
Proof.
  intros Hp w'. destruct (addProfileToQueue_found env steamId u api w p Hp) as (i & Hfound).
  fold w' in Hfound. split; [by destruct (findProfile_Some _ _ _ _ Hfound)|]. split.
  - unfold getProfileBySteamId, bind, readQueueProfiles, ret.
    change (default [] (queueFile w')) with (getQueuedProfilesSync w'). by rewrite Hfound.
  - by rewrite addProfileToQueue_explicit, Hfound.
Qed.

Lemma addProfileToQueue_idempotent_witness :
  addProfileToQueue plainEnv "A" (Some "other name") (Some probeKnowsAll) worldWithAlice
    = (Returned (Some (newProfile plainEnv "A" (Some "alice"))), worldWithAlice).
Proof.
  apply (addProfileToQueue_idempotent plainEnv "A" (Some "alice") (Some "other name")
           None (Some probeKnowsAll) emptyWorld). reflexivity.
Defined.

(** X15: an insert appends: when the id is new, the probe does not object
    and the write succeeds, the stored profiles are the old ones, unchanged
    and in their order, followed by the new profile, which has the seven
    checks all [to_check] and the user name given, or [Professor] when that
    is missing or blank; so after an insert into an empty store the new
    profile is the next processable one. *)
Theorem addProfileToQueue_appends (env : Env) (steamId : string) (u : option string)
    (api : option ApiService) (w : World) :
  findProfile steamId (getQueuedProfilesSync w) = None →
  probeSaysExists api steamId = false →
  fsWriteOk env (fsWrites w) = true →
  let r := addProfileToQueue env steamId u api w in
  let p := newProfile env steamId u in
  r.1 = Returned (Some p) ∧
  getQueuedProfilesSync r.2 = (getQueuedProfilesSync w ++ [p])%list ∧
  checksExact p ∧
  (∀ name, name ∈ CHECK_NAMES → checks p !! name = Some "to_check") ∧
  (username p = "Professor" ∨ ∃ s, u = Some s ∧ isBlank s = false ∧ username p = s) ∧
  (getQueuedProfilesSync w = [] → ∀ fuel,
     getNextProcessableProfile env (S fuel) r.2 = Some (Returned (Some p), r.2)).
Proof.
  intros Hfind Hprobe Hok r p. subst r p.
  rewrite addProfileToQueue_explicit, Hfind, Hprobe, Hok. cbn [fst snd].
  split; [done|]. split; [done|]. split; [apply StoreFacts.initialChecks_exact|].
  split; [|split].
  - intros name Hname. cbn [checks newProfile]. unfold initialChecks.
    apply elem_of_list_to_map_1.
    + apply (bool_decide_unpack _). vm_compute. exact I.
    + apply list_elem_of_fmap. by exists name.
  - destruct u as [s|]; cbn; [|by left].
    destruct (isBlank s) eqn:Hb; [by left|]. right. by exists s.
  - intros Hnil fuel. cbn [getNextProcessableProfile]. unfold inserted.
    cbn [queueFile default from_option id]. rewrite Hnil. cbn [app length].
    rewrite (bool_decide_eq_false_2 (1%nat = 0%nat)) by done. cbn [andb].
    assert (someCheck "to_check" (newProfile env steamId u) = true) as Hto.
    { apply StoreFacts.someCheck_spec. exists "friends". vm_compute. reflexivity. }
    cbn [firstPass]. by rewrite Hto.
Qed.

Lemma addProfileToQueue_appends_witness :
  (addProfileToQueue plainEnv "B" (Some blankName) None worldWithAlice).1
    = Returned (Some (newProfile plainEnv "B" (Some blankName))) ∧
  username (newProfile plainEnv "B" (Some blankName)) = "Professor" ∧
  steam_id <$> getQueuedProfilesSync
                 (addProfileToQueue plainEnv "B" (Some blankName) None worldWithAlice).2
    = ["A"; "B"].
Proof.
  destruct (addProfileToQueue_appends plainEnv "B" (Some blankName) None worldWithAlice)
    as (Hret & Hstore & _); [by vm_compute | reflexivity | reflexivity |].
  split; [exact Hret|]. split; [reflexivity|]. rewrite Hstore. vm_compute. reflexivity.
Defined.

Lemma filter_all {A} (P : A → Prop) `{∀ x, Decision (P x)} (l : list A) :
  Forall P l → filter P l = l.
Proof.
  induction 1 as [|x l Hx _ IH]; [done|]. by rewrite filter_cons_True, IH.
Qed.

Lemma remove_shrinks steamId (profiles : list Profile) :
  (length (filter (λ p, steam_id p ≠ steamId) profiles) <? length profiles)%nat = true ↔
  is_Some (findProfile steamId profiles).
Proof.
  rewrite Nat.ltb_lt. split.
  - intros Hlt. destruct (findProfile steamId profiles) as [[i p]|] eqn:Hfind; [eauto|].
    exfalso. apply findProfile_None in Hfind.
    rewrite filter_all in Hlt; [lia|]. apply Forall_forall. intros p Hp Heq.
    apply Hfind, list_elem_of_fmap. by exists p.
  - intros [[i p] Hfind]. apply findProfile_Some in Hfind as (Hid & _ & Hin).
    apply (length_filter_lt _ _ p); [done|]. by intros Hne.
Qed.

(** X16: [removeProfileFromQueue] never throws; it returns [true] exactly
    when a profile with the id is stored and the write succeeds; then no
    profile with that id is left, the other profiles are the stored ones in
    their order, and [completeItems([id])] is the one call made, if a queue
    client is configured; when it returns [false] the file and the call log
    are as before. *)
Theorem removeProfileFromQueue_result (env : Env) (steamId : string) (w : World) :
  let profiles := getQueuedProfilesSync w in
  let r := removeProfileFromQueue env steamId w in
  (r.1 = Returned true ∨ r.1 = Returned false) ∧
  (r.1 = Returned true ↔
     is_Some (findProfile steamId profiles) ∧ fsWriteOk env (fsWrites w) = true) ∧
  (r.1 = Returned true →
     getProfileBySteamId steamId r.2 = (Returned None, r.2) ∧
     getQueuedProfilesSync r.2 = filter (λ p, steam_id p ≠ steamId) profiles ∧
     serviceCalls r.2 =
       (serviceCalls w ++ match redisQueueClient env with
                          | Some _ => [CompleteItems [steamId]]
                          | None => []
                          end)%list) ∧
  (r.1 = Returned false → queueFile r.2 = queueFile w ∧ serviceCalls r.2 = serviceCalls w).
Proof.
  intros profiles r. subst profiles r.
  pose proof (remove_shrinks steamId (getQueuedProfilesSync w)) as Hshrink.
  unfold_store.
  destruct (_ <? _)%nat eqn:Hlt.
  - assert (is_Some (findProfile steamId (default [] (queueFile w)))) as Hsome
      by (by apply Hshrink).
    destruct (fsWriteOk env (fsWrites w)) eqn:Hok; cbn.
    + assert (findProfile steamId
                (filter (λ p, steam_id p ≠ steamId) (default [] (queueFile w))) = None) as Hgone.
      { apply findProfile_None. intros (p & -> & Hp)%list_elem_of_fmap.
        by apply list_elem_of_filter in Hp as [Hne _]. }
      unfold findProfile in Hgone.
      destruct (redisQueueClient env); cbn; rewrite ?Hgone, ?app_nil_r;
        (split; [by left|]); (split; [done|]); (split; [done|discriminate]).
    + split; [by right|]. split; [split; [discriminate|by intros [_ ?]]|].
      split; [discriminate|done].
  - split; [by right|]. split; [split; [discriminate|]|split; [discriminate|done]].
    intros [Hsome _]. apply Hshrink in Hsome. congruence.
Qed.

(** Looking a profile up after one profile has been rewritten without
    changing its id. *)
Lemma findProfile_alter steamId (g : Profile → Profile) :
  (∀ p, steam_id (g p) = steam_id p) →
  ∀ profiles i,
    findProfile steamId (alter g i profiles) = tagAltered g i <$> findProfile steamId profiles.
Proof.
  intros Hg. unfold findProfile.
  induction profiles as [|x profiles IH]; intros i; [done|].
  destruct i as [|i]; cbn [alter list_alter list_find].
  - rewrite Hg. destruct (decide (steam_id x = steamId)); [done|].
    destruct (list_find _ profiles) as [[j p]|]; done.
  - destruct (decide (steam_id x = steamId)); [done|].
    change (list_alter g i profiles) with (alter g i profiles). rewrite IH.
    destruct (list_find _ profiles) as [[j p]|]; [|done]. cbn. unfold tagAltered. cbn.
    destruct (decide (j = i)); [by rewrite decide_True by lia | by rewrite decide_False by lia].
Qed.

(** [updateProfileCheck], case by case. *)
Lemma updateProfileCheck_explicit env steamId checkName status w :
  updateProfileCheck env steamId checkName status w =
  match findProfile steamId (getQueuedProfilesSync w) with
  | None => (Returned false, w)
  | Some (i, _) =>
      if bool_decide (status ∈ validStatuses) then
        if fsWriteOk env (fsWrites w)
        then (Returned true,
              {| queueFile := Some (alter (setCheck checkName status) i
                                          (getQueuedProfilesSync w));
                 fsWrites := S (fsWrites w); serviceCalls := serviceCalls w |})
        else (Returned false,
              {| queueFile := queueFile w; fsWrites := S (fsWrites w);
                 serviceCalls := serviceCalls w |})
      else (Returned false, w)
  end.
Proof.
  unfold_store.
  destruct (findProfile steamId (default [] (queueFile w))) as [[i p]|]; [|done].
  case_bool_decide; cbn; [|done]. by destruct (fsWriteOk env (fsWrites w)).
Qed.

Lemma getProfileBySteamId_explicit steamId w :
  getProfileBySteamId steamId w =
  (Returned (snd <$> findProfile steamId (getQueuedProfilesSync w)), w).
Proof. done. Qed.

(** X17: a successful [updateProfileCheck] changes one entry of one
    profile: the ids and their order stay, a lookup of any other id gives
    what it gave before, a lookup of the id gives the former profile after
    the assignment [checks[checkName] = status], with every other check, the
    user name and the timestamp as they were, and no call goes to the queue
    client.  The assigned key holds the status, except that [__proto__] on a
    mapping without that key is ignored and the profile is as before. *)
Theorem updateProfileCheck_frame (env : Env) (steamId checkName status : string) (w : World) :
  (updateProfileCheck env steamId checkName status w).1 = Returned true →
  let w' := (updateProfileCheck env steamId checkName status w).2 in
  steam_id <$> getQueuedProfilesSync w' = steam_id <$> getQueuedProfilesSync w ∧
  (∀ other, other ≠ steamId →
     (getProfileBySteamId other w').1 = (getProfileBySteamId other w).1) ∧
  (∃ p, (getProfileBySteamId steamId w).1 = Returned (Some p) ∧
        (getProfileBySteamId steamId w').1 = Returned (Some (setCheck checkName status p)) ∧
        (checkName ≠ "__proto__" ∨ is_Some (checks p !! "__proto__") →
           checks (setCheck checkName status p) !! checkName = Some status) ∧
        (checkName = "__proto__" → checks p !! "__proto__" = None →
           (getProfileBySteamId steamId w').1 = Returned (Some p)) ∧
        (∀ name, name ≠ checkName →
           checks (setCheck checkName status p) !! name = checks p !! name) ∧
        username (setCheck checkName status p) = username p ∧
        timestamp (setCheck checkName status p) = timestamp p) ∧
  serviceCalls w' = serviceCalls w.
Proof.
  rewrite updateProfileCheck_explicit, !getProfileBySteamId_explicit.
  destruct (findProfile steamId (getQueuedProfilesSync w)) as [[i p]|] eqn:Hfind; [|done].
  case_bool_decide as Hst; [|done].
  destruct (fsWriteOk env (fsWrites w)); [|done]. intros _ w'. subst w'.
  cbn [fst snd serviceCalls].
  change (getQueuedProfilesSync {| queueFile := Some ?l; fsWrites := _; serviceCalls := _ |})
    with l.
  assert (∀ q, steam_id (setCheck checkName status q) = steam_id q) as Hid
    by (intros q; apply StoreFacts.setCheck_frame).
  split; [apply ids_alter_setCheck|]. split; [|split; [|done]].
  - intros other Hne. rewrite !getProfileBySteamId_explicit. cbn [fst].
    change (getQueuedProfilesSync {| queueFile := Some ?l; fsWrites := _; serviceCalls := _ |})
      with l.
    rewrite (findProfile_alter other _ Hid).
    destruct (findProfile other (getQueuedProfilesSync w)) as [[j q]|] eqn:Hother; [|done].
    cbn. unfold tagAltered. cbn. case_decide as Hj; [|done]. subst j.
    apply findProfile_Some in Hother as (Hq & Hjq & _).
    apply findProfile_Some in Hfind as (Hp & Hip & _). congruence.
  - exists p. rewrite !getProfileBySteamId_explicit. cbn [fst].
    change (getQueuedProfilesSync {| queueFile := Some ?l; fsWrites := _; serviceCalls := _ |})
      with l.
    rewrite (findProfile_alter steamId _ Hid), Hfind. cbn. unfold tagAltered. cbn.
    rewrite decide_True by done. split; [done|]. split; [done|].
    destruct (StoreFacts.setCheck_frame checkName status p) as (_ & Huser & Htime & Hrest).
    split; [|split; [|done]].
    + intros Hown. rewrite (StoreFacts.setCheck_written _ _ _ Hown). apply lookup_insert_eq.
    + intros -> Hnone. by rewrite StoreFacts.setCheck_ignored.
Qed.

Lemma updateProfileCheck_frame_witness :
  steam_id <$> getQueuedProfilesSync
                 (updateProfileCheck plainEnv "A" "friends" "passed" worldDoneThenTodo).2
    = ["T"; "A"] ∧
  (getProfileBySteamId "T"
     (updateProfileCheck plainEnv "A" "friends" "passed" worldDoneThenTodo).2).1
    = Returned (Some profileDone) ∧
  (getProfileBySteamId "A"
     (updateProfileCheck plainEnv "A" "__proto__" "passed" worldDoneThenTodo).2).1
    = Returned (Some profileTodo).
Proof.
  destruct (updateProfileCheck_frame plainEnv "A" "friends" "passed" worldDoneThenTodo)
    as (Hids & Hother & _); [by vm_compute|].
  destruct (updateProfileCheck_frame plainEnv "A" "__proto__" "passed" worldDoneThenTodo)
    as (_ & _ & (p & Hbefore & _ & _ & Hignored & _) & _); [by vm_compute|].
  assert (Returned (Some profileTodo) = Returned (E := string) (Some p)) as [= <-]
    by (rewrite <- Hbefore; by vm_compute).
  split; [rewrite Hids; by vm_compute|]. split; [rewrite Hother by done; by vm_compute|].
  apply Hignored; [done | by vm_compute].
Defined.

(** *** Deferred checks *)

Lemma countDeferred_nonneg p : 0 ≤ countDeferred p.
Proof. unfold countDeferred. lia. Qed.

Lemma filter_none_existsb (l : list string) (wanted : string) :
  length (filter (λ status, status = wanted) l) = 0%nat ↔
  existsb (λ status, bool_decide (status = wanted)) l = false.
Proof.
  induction l as [|x l IH]; [done|]. cbn [existsb].
  destruct (decide (x = wanted)) as [->|Hne].
  - rewrite filter_cons_True by done. rewrite bool_decide_eq_true_2 by done. done.
  - rewrite filter_cons_False by done. rewrite bool_decide_eq_false_2 by done. done.
Qed.

Lemma countDeferred_zero p : countDeferred p = 0 ↔ someCheck "deferred" p = false.
Proof.
  unfold countDeferred, someCheck. rewrite <- filter_none_existsb. lia.
Qed.

Lemma sum_zero (l : list Z) : Forall (λ n, 0 ≤ n) l → (foldr Z.add 0 l = 0 ↔ Forall (λ n, n = 0) l).
Proof.
  induction 1 as [|x l Hx Hl IH]; [done|]. cbn [foldr].
  assert (0 ≤ foldr Z.add 0 l) by (clear IH; induction Hl; cbn; lia).
  rewrite Forall_cons. rewrite <- IH. lia.
Qed.

Lemma totalDeferred_zero (profiles : list Profile) :
  foldr Z.add 0 (countDeferred <$> profiles) = 0 ↔ noDeferred profiles.
Proof.
  rewrite sum_zero by (apply Forall_fmap, Forall_forall; intros; apply countDeferred_nonneg).
  rewrite Forall_fmap, Forall_forall. unfold noDeferred. split.
  - intros Hall p Hp. apply StoreFacts.someCheck_false, countDeferred_zero. by apply Hall.
  - intros Hno p Hp. apply countDeferred_zero, StoreFacts.someCheck_false. by apply Hno.
Qed.

Lemma convertProfile_no_deferred p : someCheck "deferred" (convertProfile p).1 = false.
Proof.
  apply StoreFacts.someCheck_false. intros name. cbn. rewrite lookup_fmap.
  destruct (checks p !! name) as [s|]; [|done]. cbn. by case_decide; intros [=].
Qed.

Lemma converted_sum (profiles : list Profile) :
  foldr Z.add 0 (convertProfile <$> profiles).*2 = foldr Z.add 0 (countDeferred <$> profiles).
Proof. induction profiles as [|p l IH]; [done|]. cbn. by rewrite IH. Qed.

Lemma converted_affected (profiles : list Profile) :
  length (filter (λ c : Profile * Z, 0 < c.2) (convertProfile <$> profiles)) =
  length (filter (λ p, 0 < countDeferred p) profiles).
Proof.
  induction profiles as [|p l IH]; [done|]. cbn [fmap list_fmap].
  destruct (decide (0 < countDeferred p)).
  - rewrite !filter_cons_True by done. cbn. by rewrite IH.
  - rewrite !filter_cons_False by done. done.
Qed.

Lemma affected_zero (profiles : list Profile) :
  noDeferred profiles → filter (λ p, 0 < countDeferred p) profiles = [].
Proof.
  intros Hno.
  assert (Forall (λ p, countDeferred p = 0) profiles) as Hall.
  { apply Forall_forall. intros p Hp.
    apply countDeferred_zero, StoreFacts.someCheck_false. by apply Hno. }
  clear Hno. induction Hall as [|p l Hp _ IH]; [done|].
  rewrite filter_cons_False by lia. done.
Qed.

Lemma getDeferredCheckStats_explicit w :
  getDeferredCheckStats w =
  (Returned {| totalDeferred := foldr Z.add 0 (countDeferred <$> getQueuedProfilesSync w);
               profilesWithDeferred :=
                 Z.of_nat (length (filter (λ p, 0 < countDeferred p)
                                          (getQueuedProfilesSync w)));
               totalProfiles := Z.of_nat (length (getQueuedProfilesSync w)) |}, w).
Proof. done. Qed.

(** [convertDeferredChecksToToCheck], case by case. *)
Lemma convertDeferred_explicit env w :
  let profiles := getQueuedProfilesSync w in
  let total := foldr Z.add 0 (countDeferred <$> profiles) in
  let affected := Z.of_nat (length (filter (λ p, 0 < countDeferred p) profiles)) in
  convertDeferredChecksToToCheck env w =
  if 0 <? total then
    if fsWriteOk env (fsWrites w)
    then (Returned (total, affected),
          {| queueFile := Some (convertProfile <$> profiles).*1;
             fsWrites := S (fsWrites w); serviceCalls := serviceCalls w |})
    else (Returned (0, 0),
          {| queueFile := queueFile w; fsWrites := S (fsWrites w);
             serviceCalls := serviceCalls w |})
  else (Returned (total, affected), w).
Proof.
  intros profiles total affected. subst profiles total affected. unfold_store.
  rewrite converted_sum, converted_affected.
  destruct (0 <? _); [|done]. by destruct (fsWriteOk env (fsWrites w)).
Qed.

(** X18: the deferred sweep never throws.  With no deferred check it
    reports [(0, 0)] and writes nothing.  Otherwise, if the write succeeds,
    it reports the number of deferred checks and of profiles having one,
    as [getDeferredCheckStats] counted them; afterwards no profile has a
    deferred check, every deferred check is [to_check] and every other check
    is what it was, ids and order are kept, and a second sweep reports
    [(0, 0)] without writing.  If the write fails it reports [(0, 0)] and
    the file is unchanged. *)
Theorem convertDeferred_result (env : Env) (w : World) (stats : DeferredCheckStats) :
  (getDeferredCheckStats w).1 = Returned stats →
  let r := convertDeferredChecksToToCheck env w in
  (totalDeferred stats = 0 → r = (Returned (0, 0), w)) ∧
  (0 < totalDeferred stats → fsWriteOk env (fsWrites w) = true →
     r.1 = Returned (totalDeferred stats, profilesWithDeferred stats) ∧
     noDeferred (getQueuedProfilesSync r.2) ∧
     steam_id <$> getQueuedProfilesSync r.2 = steam_id <$> getQueuedProfilesSync w ∧
     (∀ i p, getQueuedProfilesSync w !! i = Some p →
        ∃ p', getQueuedProfilesSync r.2 !! i = Some p' ∧
              ∀ name, checks p' !! name =
                      (λ status, if decide (status = "deferred") then "to_check" else status)
                        <$> checks p !! name) ∧
     convertDeferredChecksToToCheck env r.2 = (Returned (0, 0), r.2)) ∧
  (0 < totalDeferred stats → fsWriteOk env (fsWrites w) = false →
     r.1 = Returned (0, 0) ∧ queueFile r.2 = queueFile w).
Proof.
  rewrite getDeferredCheckStats_explicit. cbn [fst].
  intros [= <-]. cbn [totalDeferred profilesWithDeferred].
  rewrite convertDeferred_explicit.
  set (total := foldr Z.add 0 (countDeferred <$> getQueuedProfilesSync w)).
  split; [|split].
  - intros Hzero. rewrite Hzero. cbn.
    apply totalDeferred_zero in Hzero.
    by rewrite affected_zero.
  - intros Hpos Hok. rewrite (proj2 (Z.ltb_lt 0 total) Hpos), Hok. cbn [fst snd].
    change (getQueuedProfilesSync {| queueFile := Some ?l; fsWrites := _; serviceCalls := _ |})
      with l.
    assert (noDeferred (convertProfile <$> getQueuedProfilesSync w).*1) as Hno.
    { intros p Hp. apply list_elem_of_fmap in Hp as ([p1 n] & -> & Hp).
      apply list_elem_of_fmap in Hp as (p0 & [= -> _] & _).
      apply StoreFacts.someCheck_false, convertProfile_no_deferred. }
    split; [done|]. split; [done|]. split; [apply ids_convert|]. split.
    + intros i p Hi. exists (convertProfile p).1. split.
      * by rewrite !list_lookup_fmap, Hi.
      * intros name. cbn. by rewrite lookup_fmap.
    + rewrite convertDeferred_explicit.
      change (getQueuedProfilesSync {| queueFile := Some ?l; fsWrites := _; serviceCalls := _ |})
        with l.
      pose proof (proj2 (totalDeferred_zero _) Hno) as Hz. rewrite Hz. cbn.
      by rewrite affected_zero.
  - intros Hpos Hok. rewrite (proj2 (Z.ltb_lt 0 total) Hpos), Hok. done.
Qed.

Lemma convertDeferred_result_witness :
  (convertDeferredChecksToToCheck plainEnv worldDeferredThenTodo).1 = Returned (1, 1) ∧
  convertDeferredChecksToToCheck plainEnv
    (convertDeferredChecksToToCheck plainEnv worldDeferredThenTodo).2
  = (Returned (0, 0), (convertDeferredChecksToToCheck plainEnv worldDeferredThenTodo).2).
Proof.
  destruct (convertDeferred_result plainEnv worldDeferredThenTodo
              {| totalDeferred := 1; profilesWithDeferred := 1; totalProfiles := 2 |})
    as (_ & Hswept & _); [by vm_compute|].
  destruct Hswept as (Hret & _ & _ & _ & Hagain); [reflexivity | reflexivity |].
  split; [exact Hret | exact Hagain].
Defined.

(** X19: the deferred statistics are consistent with each other and with
    the health gate: the profiles with a deferred check are at most all
    profiles and at most the deferred checks; the total is zero exactly when
    no stored check is deferred; and without a validator the gate is open
    exactly when the total is zero. *)
Theorem deferred_stats_consistent (env : Env) (w : World) (stats : DeferredCheckStats) :
  (getDeferredCheckStats w).1 = Returned stats →
  0 ≤ profilesWithDeferred stats ≤ totalProfiles stats ∧
  profilesWithDeferred stats ≤ totalDeferred stats ∧
  totalProfiles stats = Z.of_nat (length (getQueuedProfilesSync w)) ∧
  (totalDeferred stats = 0 ↔ noDeferred (getQueuedProfilesSync w)) ∧
  (totalDeferred stats = 0 ↔ profilesWithDeferred stats = 0) ∧
  (steamValidator env = None →
     (isHealthyToClaimWork env w = true ↔ totalDeferred stats = 0)).
Proof.
  rewrite getDeferredCheckStats_explicit. cbn [fst]. intros [= <-].
  cbn [totalDeferred profilesWithDeferred totalProfiles].
  set (profiles := getQueuedProfilesSync w).
  assert (Z.of_nat (length (filter (λ p, 0 < countDeferred p) profiles))
          ≤ foldr Z.add 0 (countDeferred <$> profiles)) as Hle.
  { clearbody profiles. induction profiles as [|p l IH]; [done|]. cbn [fmap list_fmap foldr].
    pose proof (countDeferred_nonneg p).
    destruct (decide (0 < countDeferred p)).
    - rewrite filter_cons_True by done. cbn [length]. lia.
    - rewrite filter_cons_False by done. lia. }
  assert (Z.of_nat (length (filter (λ p, 0 < countDeferred p) profiles)) = 0 →
          foldr Z.add 0 (countDeferred <$> profiles) = 0) as Hback.
  { clearbody profiles. clear Hle. induction profiles as [|p l IH]; [done|].
    cbn [fmap list_fmap foldr]. pose proof (countDeferred_nonneg p).
    destruct (decide (0 < countDeferred p)).
    - rewrite filter_cons_True by done. cbn [length]. lia.
    - rewrite filter_cons_False by done. intros Hz. rewrite (IH Hz). lia. }
  pose proof (length_filter (λ p, 0 < countDeferred p) profiles).
  split; [lia|]. split; [done|]. split; [done|]. split; [apply totalDeferred_zero|].
  split; [split; [|done]; lia|].
  intros Hnone. rewrite totalDeferred_zero, <- StoreFacts.hasDeferredChecks_false.
  unfold isHealthyToClaimWork. rewrite Hnone. fold profiles.
  by destruct (existsb _ profiles).
Qed.

Lemma deferred_stats_consistent_witness :
  isHealthyToClaimWork plainEnv worldDeferredThenTodo = false.
Proof.
  destruct (deferred_stats_consistent plainEnv worldDeferredThenTodo
              {| totalDeferred := 1; profilesWithDeferred := 1; totalProfiles := 2 |})
    as (_ & _ & _ & _ & _ & Hgate); [by vm_compute|].
  apply not_true_iff_false. intros Hopen. by apply (Hgate eq_refl) in Hopen.
Defined.

(** X20: [getDeferredChecksFromQueue] lists exactly the deferred checks: a
    pair of id and check name is in the list exactly when a stored profile
    with that id has that check deferred; the list is empty exactly when no
    check is deferred. *)
Theorem deferredChecks_complete (w : World) (steamId checkType : string) :
  let listed := (getDeferredChecksFromQueue w).1 in
  (∃ l, listed = Returned l ∧
     ((steamId, checkType) ∈ l ↔
        ∃ p, p ∈ getQueuedProfilesSync w ∧ steam_id p = steamId ∧
             checks p !! checkType = Some "deferred") ∧
     (l = [] ↔ noDeferred (getQueuedProfilesSync w))).
Proof.
  unfold getDeferredChecksFromQueue, bind, readQueueProfiles, ret. cbn [fst].
  change (default [] (queueFile w)) with (getQueuedProfilesSync w).
  eexists. split; [done|].
  assert (∀ id name,
    (id, name) ∈ (getQueuedProfilesSync w ≫= λ profile,
                    (λ entry : string * string, (steam_id profile, entry.1))
                      <$> filter (λ entry, entry.2 = "deferred") (map_to_list (checks profile)))
    ↔ ∃ p, p ∈ getQueuedProfilesSync w ∧ steam_id p = id ∧
           checks p !! name = Some "deferred") as Hmem.
  { intros id name. rewrite list_elem_of_bind. split.
    - intros (p & Hin & Hp). exists p.
      apply list_elem_of_fmap in Hin as ([n s] & [= -> ->] & Hent).
      apply list_elem_of_filter in Hent as [Hs Hent]. cbn in Hs. subst s.
      by apply elem_of_map_to_list in Hent.
    - intros (p & Hp & <- & Hname). exists p. split; [|done].
      apply list_elem_of_fmap. exists (name, "deferred"). split; [done|].
      apply list_elem_of_filter. split; [done|]. by apply elem_of_map_to_list. }
  split; [apply Hmem|]. split.
  - intros Hnil p Hp name Hname.
    assert ((steam_id p, name) ∈ @nil (string * string)) as Hin
      by (rewrite <- Hnil; apply Hmem; eauto).
    by apply not_elem_of_nil in Hin.
  - intros Hno. apply elem_of_nil_inv. intros [id name] Hin.
    apply Hmem in Hin as (p & Hp & _ & Hname). by apply (Hno p Hp name).
Qed.

(** *** Completion *)

Lemma everyCheck_spec accept p :
  everyCheck accept p = true ↔ ∀ name status, checks p !! name = Some status → accept status = true.
Proof.
  unfold everyCheck. rewrite forallb_forall. split.
  - intros Hall name status Hname. apply Hall, list_elem_of_In, list_elem_of_fmap.
    exists (name, status). split; [done|]. by apply elem_of_map_to_list.
  - intros Hall status Hin. apply list_elem_of_In, list_elem_of_fmap in Hin as ([n s] & -> & Hin).
    apply elem_of_map_to_list in Hin. by apply (Hall n).
Qed.

(** X21: for a stored profile, [allPassed] implies [allComplete];
    [allComplete] implies that the profile has neither a [to_check] nor a
    deferred check, so the scan for the next profile does not skip it; for a
    profile whose statuses are among the four the converse holds too; and
    [getAllChecksPassed] answers [allPassed].  For an id that is not stored
    both functions answer false. *)
Theorem completion_is_terminal (steamId : string) (w : World) :
  let r := (getAllChecksComplete steamId w).1 in
  match findProfile steamId (getQueuedProfilesSync w) with
  | None =>
      r = Returned (false, false) ∧ (getAllChecksPassed steamId w).1 = Returned false
  | Some (_, p) =>
      ∃ allComplete allPassed,
        r = Returned (allComplete, allPassed) ∧
        (getAllChecksPassed steamId w).1 = Returned allPassed ∧
        (allPassed = true → allComplete = true) ∧
        (allComplete = true → allTerminal p = true ∧ processableNow p = true) ∧
        (statusesValid p → allTerminal p = true → allComplete = true)
  end.
Proof.
  unfold getAllChecksComplete, getAllChecksPassed, bind, readQueueProfiles, ret. cbn [fst].
  change (default [] (queueFile w)) with (getQueuedProfilesSync w).
  destruct (findProfile steamId (getQueuedProfilesSync w)) as [[i p]|]; [|done].
  cbn [fst]. eexists _, _. split; [done|]. split; [done|].
  rewrite !everyCheck_spec. unfold allTerminal, processableNow.
  rewrite andb_true_iff, !negb_true_iff, !StoreFacts.someCheck_false.
  split; [|split].
  - intros Hall name status Hname. by rewrite (Hall name status Hname).
  - intros Hall.
    assert (∀ name, checks p !! name ≠ Some "to_check") as Hto
      by (intros name Hname; by specialize (Hall name _ Hname)).
    assert (∀ name, checks p !! name ≠ Some "deferred") as Hdef
      by (intros name Hname; by specialize (Hall name _ Hname)).
    split; [done|]. apply orb_true_iff. right.
    by apply negb_true_iff, StoreFacts.someCheck_false.
  - intros Hvalid [Hto Hdef] name status Hname.
    pose proof (Hvalid name status Hname) as Hin. unfold validStatuses in Hin.
    apply list_elem_of_In in Hin. cbn in Hin.
    destruct Hin as [<-|[<-|[<-|[<-|[]]]]]; [|done|done|].
    + by destruct (Hto name).
    + by destruct (Hdef name).
Qed.

Lemma getNext_scan env fuel w :
  getQueuedProfilesSync w ≠ [] →
  getNextProcessableProfile env (S fuel) w
    = Some (Returned (select (getQueuedProfilesSync w)), w).
Proof.
  intros Hne. cbn [getNextProcessableProfile]. unfold getQueuedProfilesSync in *.
  rewrite (bool_decide_eq_false_2 (length (default [] (queueFile w)) = 0%nat))
    by (by intros ?%nil_length_inv).
  cbn [andb]. rewrite <- StoreFacts.scan_select. by destruct (firstPass _).
Qed.

(** X22: when no stored check is deferred, the next processable profile is
    the oldest one, the one [processNextQueued] returns. *)
Theorem next_is_oldest_without_deferred (env : Env) (fuel : nat) (w : World) :
  getQueuedProfilesSync w ≠ [] →
  noDeferred (getQueuedProfilesSync w) →
  getNextProcessableProfile env (S fuel) w
    = Some (Returned (head (getQueuedProfilesSync w)), w) ∧
  processNextQueued w = (Returned (head (getQueuedProfilesSync w)), w).
Proof.
  intros Hne Hno. split; [|done]. rewrite getNext_scan by done. do 2 f_equal.
  destruct (getQueuedProfilesSync w) as [|p l]; [done|]. unfold select. cbn.
  assert (processableNow p = true) as ->; [|done].
  unfold processableNow. apply orb_true_iff. right.
  apply negb_true_iff, StoreFacts.someCheck_false. apply Hno. by left.
Qed.

Lemma next_is_oldest_without_deferred_witness :
  getNextProcessableProfile plainEnv 1 worldDoneThenTodo
    = Some (Returned (Some profileDone), worldDoneThenTodo).
Proof.
  apply (next_is_oldest_without_deferred plainEnv 0 worldDoneThenTodo); [done|].
  apply StoreFacts.hasDeferredChecks_false. by vm_compute.
Defined.

(** *** Pulling and the store *)

Lemma addProfileToQueue_prefix env steamId u api w :
  getQueuedProfilesSync w `prefix_of`
    getQueuedProfilesSync (addProfileToQueue env steamId u api w).2.
Proof.
  rewrite addProfileToQueue_explicit.
  destruct (findProfile steamId (getQueuedProfilesSync w)) as [[i existing]|]; [done|].
  destruct (probeSaysExists api steamId); [done|].
  destruct (fsWriteOk env (fsWrites w)); [|done].
  cbn. by apply prefix_app_r.
Qed.

Lemma afterAttempts_prefix env api items : ∀ w,
  getQueuedProfilesSync w `prefix_of` getQueuedProfilesSync (afterAttempts env api items w).
Proof.
  induction items as [|it items IH]; intros w; [done|]. cbn [afterAttempts].
  etrans; [apply (addProfileToQueue_prefix env (Item.id it) (Item.username it) api)|apply IH].
Qed.

Lemma afterAttempts_preserves env api items (P : list Profile → Prop) :
  (∀ steamId u w, P (getQueuedProfilesSync w) →
     P (getQueuedProfilesSync (run env (AddProfile steamId u api) w))) →
  ∀ w, P (getQueuedProfilesSync w) → P (getQueuedProfilesSync (afterAttempts env api items w)).
Proof.
  intros Hrun. induction items as [|it items IH]; intros w Hw; [done|]. cbn [afterAttempts].
  apply IH. apply (Hrun (Item.id it) (Item.username it) w Hw).
Qed.

Lemma findProfile_prefix steamId (l l' : list Profile) :
  l `prefix_of` l' → is_Some (findProfile steamId l) → is_Some (findProfile steamId l').
Proof.
  intros [k ->] [[i p] Hfind]. exists (i, p). apply list_find_app_Some. by left.
Qed.

Lemma pull_store env count w :
  getQueuedProfilesSync (pullFromRedisQueue env count w).2 = getQueuedProfilesSync w ∨
  ∃ client, redisQueueClient env = Some client ∧ isHealthyToClaimWork env w = true ∧
    getQueuedProfilesSync (pullFromRedisQueue env count w).2 =
    getQueuedProfilesSync (afterAttempts env None (claimItems client count) w).
Proof.
  rewrite StoreFacts.pullFromRedisQueue_explicit.
  destruct (redisQueueClient env) as [client|]; [|by left].
  destruct (isHealthyToClaimWork env w); [|by left]. right. by exists client.
Qed.

(** X23: the pull never throws and only appends: whatever the queue
    service hands out and whichever writes fail, the profiles stored before
    are still there afterwards, unchanged and in their positions, followed by
    the new ones; ids stay distinct, profiles that had exactly the seven
    checks still have them, and the count returned is between zero and the
    number of items claimed. *)
Theorem pull_only_appends (env : Env) (count : Z) (w : World) :
  let r := pullFromRedisQueue env count w in
  getQueuedProfilesSync w `prefix_of` getQueuedProfilesSync r.2 ∧
  (uniqueIds (getQueuedProfilesSync w) → uniqueIds (getQueuedProfilesSync r.2)) ∧
  (Forall checksExact (getQueuedProfilesSync w) →
     Forall checksExact (getQueuedProfilesSync r.2)) ∧
  (∃ added, r.1 = Returned added ∧ 0 ≤ added ∧
     ∀ client, redisQueueClient env = Some client →
       added ≤ Z.of_nat (length (claimItems client count))).
Proof.
  intros r. subst r. split; [|split; [|split]].
  - destruct (pull_store env count w) as [->|(client & _ & _ & ->)]; [done|].
    apply afterAttempts_prefix.
  - intros Hu. destruct (pull_store env count w) as [->|(client & _ & _ & ->)]; [done|].
    apply (afterAttempts_preserves env None _ uniqueIds); [|done].
    intros steamId u w0. apply uniqueIds_run.
  - intros Hall. destruct (pull_store env count w) as [->|(client & _ & _ & ->)]; [done|].
    apply (afterAttempts_preserves env None _ (Forall checksExact)); [|done].
    intros steamId u w0. apply StoreFacts.run_preserves.
    + apply StoreFacts.initialChecks_exact.
    + apply StoreFacts.checksExact_convert.
    + by intros ? ? ? [=].
  - rewrite StoreFacts.pullFromRedisQueue_explicit.
    destruct (redisQueueClient env) as [client|];
      [|exists 0; split; [done|split; [done|by intros ? [=]]]].
    destruct (isHealthyToClaimWork env w);
      [|exists 0; split; [done|split; [done|intros ? _; lia]]].
    eexists. split; [done|]. unfold addedCount. split; [lia|].
    intros ? [= <-].
    pose proof (length_filter (λ a, notAdded a = false)
                  (addAttempts env None (claimItems client count) w)) as Hlen.
    rewrite <- (StoreFacts.addAttempts_items env None (claimItems client count) w) at 2.
    rewrite length_fmap. lia.
Qed.

Lemma select_elem_of profiles p : select profiles = Some p → p ∈ profiles.
Proof.
  unfold select. destruct (List.find processableNow profiles) as [q|] eqn:Hfirst.
  - intros [= <-]. apply find_some in Hfirst as [Hin _]. by apply list_elem_of_In.
  - intros Hsecond. apply find_some in Hsecond as [Hin _]. by apply list_elem_of_In.
Qed.

Lemma afterAttempts_none_added env api items : ∀ w,
  addedCount (addAttempts env api items w) ≤ 0 →
  getQueuedProfilesSync (afterAttempts env api items w) = getQueuedProfilesSync w.
Proof.
  unfold addedCount. induction items as [|it items IH]; intros w Hzero; [done|].
  cbn [addAttempts afterAttempts] in *.
  destruct (decide (notAdded {| item := it;
      present := bool_decide (is_Some (findProfile (Item.id it) (getQueuedProfilesSync w)));
      outcome := (addProfileToQueue env (Item.id it) (Item.username it) api w).1 |} = false))
    as [Hadded|Hnot].
  - rewrite filter_cons_True in Hzero by done. cbn [length] in Hzero. lia.
  - rewrite filter_cons_False in Hzero by done. rewrite IH by done.
    unfold notAdded in Hnot. cbn [outcome] in Hnot.
    rewrite addProfileToQueue_explicit in *.
    destruct (findProfile _ _) as [[i existing]|]; [done|].
    destruct (probeSaysExists api (Item.id it)); [done|].
    destruct (fsWriteOk env (fsWrites w)); done.
Qed.

(** X25: with fuel for one pull and one scan, [getNextProcessableProfile]
    always returns and never throws; a profile it returns is in the store at
    that moment; it returns null only when the store is empty at that moment;
    and the profiles stored before the call are still there, unchanged and in
    their positions. *)
Theorem getNextProcessableProfile_total (env : Env) (fuel : nat) (w : World) :
  ∃ result w',
    getNextProcessableProfile env (S (S fuel)) w = Some (Returned result, w') ∧
    (∀ p, result = Some p → p ∈ getQueuedProfilesSync w') ∧
    (result = None → getQueuedProfilesSync w' = []) ∧
    getQueuedProfilesSync w `prefix_of` getQueuedProfilesSync w'.
Proof.
  destruct (getQueuedProfilesSync w) as [|p0 l] eqn:Hstore.
  - destruct (redisQueueClient env) as [client|] eqn:Hclient.
    + destruct (StoreFacts.pullFromRedisQueue_returns env 5 w) as (pulled & Hret & Hpos).
      destruct (pullFromRedisQueue env 5 w) as [o w'] eqn:Hpull. cbn [fst snd] in *. subst o.
      remember (S fuel) as f eqn:Hf. cbn [getNextProcessableProfile].
      unfold getQueuedProfilesSync in Hstore. rewrite Hstore, Hclient.
      rewrite !bool_decide_eq_true_2 by done. cbn [andb]. rewrite Hpull.
      destruct (0 <? pulled) eqn:Hp.
      * apply Z.ltb_lt in Hp. subst f. rewrite getNext_scan by auto.
        eexists _, w'. split; [done|]. split; [apply select_elem_of|]. split; [|apply prefix_nil].
        intros Hnone. destruct (StoreFacts.select_nonempty _ (Hpos Hp)) as [q Hq]. congruence.
      * exists None, w'. split; [done|]. split; [done|]. split; [|apply prefix_nil].
        intros _. rewrite StoreFacts.pullFromRedisQueue_explicit, Hclient in Hpull.
        destruct (isHealthyToClaimWork env w).
        -- injection Hpull as Hcount <-. apply Z.ltb_ge in Hp.
           change (getQueuedProfilesSync (setCalls ?c ?x)) with (getQueuedProfilesSync x).
           rewrite afterAttempts_none_added by lia. done.
        -- injection Hpull as _ <-. done.
    + exists None, w. cbn [getNextProcessableProfile].
      unfold getQueuedProfilesSync in *. rewrite Hstore, Hclient.
      rewrite bool_decide_eq_true_2 by done.
      rewrite (bool_decide_eq_false_2 (is_Some None)) by (by intros [? ?]). cbn [andb].
      repeat split; done.
  - assert (getQueuedProfilesSync w ≠ []) as Hne by (by rewrite Hstore).
    rewrite getNext_scan by done. rewrite Hstore.
    eexists _, w. rewrite Hstore. split; [done|]. split; [apply select_elem_of|].
    split; [|done]. intros Hnone.
    destruct (StoreFacts.select_nonempty (p0 :: l)) as [q Hq]; [done|congruence].
Qed.

End StoreExtra.

(** * Further properties of the queue client and the logger *)

Module QueueClientExtra.
Import RedisQueueClient.

Section Facts.

Variable JSON_parse : string → Outcome QueueError JSValue.
Variable transport : Request → Exchange.

(** X26: what the methods hand back for an accepted response whose body is
    the object [properties]: [claimItems] returns [items] as it is, array or
    not, and the empty array when [items] is missing or null; [getStats]
    returns [stats], which is undefined, not null, when missing; and
    [releaseInstance] returns [released_count] when that is truthy and [0]
    otherwise, so its result is always truthy or [0]. *)
Theorem accepted_response_results (self : t) (count : Z) (properties : list (string * JSValue)) :
  (makeRequest JSON_parse transport "POST" ("/queue/" +:+ queueName self +:+ "/claim")
     (Some (JObject [("instance_id", JString (instanceId self)); ("count", JNumber count)]))
     = Returned (JObject properties) →
   claimItems JSON_parse transport self count =
     Returned (match assoc "items" properties with
               | None | Some JUndefined | Some JNull => JArray []
               | Some items => items
               end)) ∧
  (makeRequest JSON_parse transport "GET" ("/queue/" +:+ queueName self +:+ "/stats") None
     = Returned (JObject properties) →
   getStats JSON_parse transport self
     = Returned (default JUndefined (assoc "stats" properties))) ∧
  (makeRequest JSON_parse transport "POST"
     ("/queue/" +:+ queueName self +:+ "/release-instance")
     (Some (JObject [("instance_id", JString (instanceId self))]))
     = Returned (JObject properties) →
   releaseInstance JSON_parse transport self =
     Returned (match assoc "released_count" properties with
               | Some released_count =>
                   if truthy released_count then released_count else JNumber 0
               | None => JNumber 0
               end)) ∧
  (∃ released, releaseInstance JSON_parse transport self = Returned released ∧
     (truthy released = true ∨ released = JNumber 0)).
Proof.
  unfold claimItems, getStats, releaseInstance. split; [|split; [|split]].
  - intros ->. cbn. destruct (assoc "items" properties) as [[]|]; cbn; done.
  - intros ->. done.
  - intros ->. cbn. destruct (assoc "released_count" properties) as [v|]; cbn; done.
  - destruct (makeRequest _ _ _ _ _) as [response|err]; cbn; [|eauto].
    destruct (getProp response "released_count") as [v|e]; cbn; [|eauto].
    destruct (truthy v) eqn:Hv; eauto.
Qed.

End Facts.
End QueueClientExtra.

Module LoggerFacts.
Import Logger.

Lemma levelOrInfo_cases key :
  (∃ n, levelOrInfo key = Rank n ∧ 0 ≤ n ≤ 3 ∧ key ∉ objectPrototypeNames) ∨
  (∃ primitive, levelOrInfo key = Inherited primitive ∧ key ∈ objectPrototypeNames).
Proof.
  unfold levelOrInfo, LOG_LEVELS.
  repeat (case_decide; [subst key; left; eexists; split; [done|];
                        split; [lia|]; apply (bool_decide_unpack _); vm_compute; exact I|]).
  case_bool_decide as Hin; [right; by eexists|].
  left. exists 1. split; [done|]. split; [lia|done].
Qed.

(** X27: logging is monotone in the level of the message: if a message of
    one level is written, so is a message of any level ranked at least as
    high.  A message at the configured level itself is always written; an
    [error] message is written under every configured level that is not the
    name of a property inherited from [Object.prototype]; under such a name
    no message is written whose level is not such a name too, so none of
    [debug], [info], [warn] and [error]. *)
Theorem shouldLog_monotone (selfLevel level level' : string) (n n' : Z) :
  levelOrInfo level = Rank n →
  levelOrInfo level' = Rank n' →
  n ≤ n' →
  (_shouldLog selfLevel level = true → _shouldLog selfLevel level' = true) ∧
  _shouldLog selfLevel selfLevel = true ∧
  (selfLevel ∉ objectPrototypeNames → _shouldLog selfLevel "error" = true) ∧
  (selfLevel ∈ objectPrototypeNames →
     ∀ any, any ∉ objectPrototypeNames → _shouldLog selfLevel any = false).
Proof.
  intros Hl Hl' Hle. unfold _shouldLog. rewrite Hl, Hl'.
  destruct (levelOrInfo_cases selfLevel) as [(c & -> & Hc & Hnot)|(s & -> & Hin)].
  - split; [rewrite !Z.leb_le; lia|]. split; [apply Z.leb_le; lia|].
    split; [|done]. intros _. cbn. apply Z.leb_le. lia.
  - split; [done|]. split; [by destruct (String.leb_total s s)|].
    split; [done|]. intros _ any Hany.
    by destruct (levelOrInfo_cases any) as [(c & -> & _)|(s' & _ & Hin')].
Qed.

Lemma shouldLog_monotone_witness :
  (_shouldLog "warn" "warn" = true → _shouldLog "warn" "error" = true) ∧
  _shouldLog "warn" "error" = true ∧
  _shouldLog "constructor" "error" = false.
Proof.
  destruct (shouldLog_monotone "warn" "warn" "error" 2 3) as (Hmono & _ & Herr & _);
    [reflexivity | reflexivity | lia |].
  destruct (shouldLog_monotone "constructor" "warn" "error" 2 3) as (_ & _ & _ & Hsilent);
    [reflexivity | reflexivity | lia |].
  split; [exact Hmono|]. split.
  - apply Herr. by apply (bool_decide_unpack _).
  - apply Hsilent; [by apply (bool_decide_unpack _)|].
    apply (bool_decide_unpack _). vm_compute. exact I.
Defined.

End LoggerFacts.
